(** * fhir-parser: the profile compiler and the example matcher of generate.py

    A shallow embedding of [src/generate.py]: the element compiler
    ([parse_elem], [process_elem_type]), the profile compiler
    ([process_profile]) with its import resolution, the class registry of
    [parse] and its reading of the version marker, the search-parameter
    collector ([process_search]), the loop over the examples
    ([process_unittests]) and the example matcher ([process_unittest] and
    below). Rendering and the file system are left out.

    Conventions of the embedding.
    - A Python [str] is a [string]; one [ascii] stands for one character.
      [str.upper] and the regex class [\w] are modelled on the ASCII range,
      which is where FHIR type codes, paths and parameter names live; the
      properties that rest on them are stated for ASCII texts.
    - A document is a record of the keys that the program reads without a
      default; a document that lacks one of them is outside the embedding.
    - The printed lines are kept for the profile compiler and the registry;
      what the example matcher and the loop over the examples print is left
      out.
    - A Python [dict] keyed by strings is a [gmap string _], a [set] of
      strings a [gset string]; the JSON objects of example documents keep
      their insertion order and are association lists.
    - Exceptions are the constructors of [exn]; a function that can raise
      returns a [result].
    - Python dictionaries standing for classes are mutable and shared
      between the [mapping] and the [classes] list of a profile; the model
      keeps the classes in one list and lets [mapping] hold positions in it.
    - The tables and switches of [settings.py] are the fields of the class
      [Settings]. *)

From Stdlib Require Import Ascii ZArith Lia Sorted Permutation.
From Stdlib Require String.
From stdpp Require Import gmap strings list pretty.

(** ** Exceptions *)

Inductive exn :=
  | AssertionError | RecursionError | ValueError | IndexError
  | AttributeError | TypeError.

Inductive result (A : Type) :=
  | Ok (a : A)
  | Raise (e : exn).
Arguments Ok {A} a.
Arguments Raise {A} e.

#[global] Instance result_ret : MRet result := fun _ a => Ok a.
#[global] Instance result_bind : MBind result := fun _ _ f r =>
  match r with Ok a => f a | Raise e => Raise e end.

#[global] Instance result_fmap : FMap result := fun _ _ f r =>
  match r with Ok a => Ok (f a) | Raise e => Raise e end.

Definition is_Ok {A} (r : result A) : Prop := ∃ a, r = Ok a.

(** A [for] loop whose body may raise: the first exception leaves the loop. *)
Fixpoint for_each {A B} (body : B → A → result B) (l : list A) (acc : B)
  : result B :=
  match l with
  | [] => Ok acc
  | x :: l' => acc' ← body acc x; for_each body l' acc'
  end.

(** ** The string operations of Python that the program uses *)

Module Py.

(** [c.upper()] on one ASCII character. *)
Definition upper (c : ascii) : ascii :=
  let n := nat_of_ascii c in
  if (97 <=? n) && (n <=? 122) then ascii_of_nat (n - 32) else c.

(** [s[:1].upper() + s[1:]] *)
Definition capitalize (s : string) : string :=
  match s with
  | EmptyString => EmptyString
  | String c r => String (upper c) r
  end.

(** [s.split(sep)] for a separator of one character. *)
Fixpoint split (sep : ascii) (s : string) : list string :=
  match s with
  | EmptyString => [EmptyString]
  | String c r =>
      if decide (c = sep) then EmptyString :: split sep r
      else match split sep r with
           | h :: t => String c h :: t
           | [] => [String c EmptyString]
           end
  end.

(** [sep.join(parts)] *)
Definition join (sep : string) (parts : list string) : string :=
  String.concat sep parts.

(** [sub in s] *)
Fixpoint contains (sub s : string) : bool :=
  String.prefix sub s ||
  match s with
  | EmptyString => false
  | String _ r => contains sub r
  end.

(** [s.replace(old, new)]: the occurrences of [old] are replaced from left
    to right, without overlap. [skip] counts the characters of a replaced
    occurrence that are still to be dropped. *)
Fixpoint replace_from (old new s : string) (skip : nat) : string :=
  match s with
  | EmptyString => EmptyString
  | String c r =>
      match skip with
      | S k => replace_from old new r k
      | O =>
          if String.prefix old s
          then new +:+ replace_from old new r (String.length old - 1)
          else String c (replace_from old new r O)
      end
  end.

Fixpoint intersperse (new s : string) : string :=
  match s with
  | EmptyString => new
  | String c r => new +:+ String c (intersperse new r)
  end.

Definition replace (old new s : string) : string :=
  match old with
  | EmptyString => intersperse new s
  | _ => replace_from old new s O
  end.

(** [s[:-1]] *)
Fixpoint but_last (s : string) : string :=
  match s with
  | EmptyString => EmptyString
  | String c EmptyString => EmptyString
  | String c r => String c (but_last r)
  end.

(** [sorted(l, key=key)]: Python's sort is stable, and a stable sort has
    one result only; insertion from the right computes it. *)
Section Sorted.
Context {A : Type} (key : A → string).

Fixpoint insert_by (x : A) (l : list A) : list A :=
    match l with
    | [] => [x]
    | y :: l' =>
        if String.leb (key x) (key y) then x :: y :: l'
        else y :: insert_by x l'
    end.

Fixpoint sorted_by (l : list A) : list A :=
    match l with
    | [] => []
    | x :: l' => insert_by x (sorted_by l')
    end.
End Sorted.

(** [sorted(l)] on strings. *)
Definition sorted (l : list string) : list string := sorted_by id l.

(** [s.split(sep, maxsplit)] for a separator of one character: at most
    [maxsplit] cuts, the rest of the text is the last part. *)
Fixpoint split_max (sep : ascii) (maxsplit : nat) (s : string) : list string :=
  match s with
  | EmptyString => [EmptyString]
  | String c r =>
      match maxsplit with
      | O => [s]
      | S m =>
          if decide (c = sep) then EmptyString :: split_max sep m r
          else match split_max sep maxsplit r with
               | h :: t => String c h :: t
               | [] => [String c EmptyString]
               end
      end
  end.

End Py.

(** ** settings.py *)

Class Settings := {
  (** type code → class name *)
  classmap : gmap string string;
  (** class names that are native to the target language *)
  natives : gset string;
  (** class name → JSON class *)
  jsonmap : gmap string string;
  jsonmap_default : string;
  (** reserved words and their replacements *)
  reservedmap : gmap string string;
  (** the types a ["*"] stands for *)
  starexpandtypes : list string;
  (** named subclasses whose properties live in their superclass *)
  subclassmap : gmap string string;
  resource_default_base : string;
  search_generate_camelcase : bool;
  write_searchparams : bool;
  ptrn_filenames_lowercase : bool;
  (** the three path formats of the unit tests, as the functions their
      format strings denote *)
  unittest_format_path_key : string → string → string;
  unittest_format_path_index : string → nat → string;
  unittest_format_path_prepare : string → string;
}.

(** [loglevel = 0]: [log0] prints, [log1] does not. The printed lines are
    collected in order. *)
Definition loglevel : Z := 0%Z.

Definition log0 (line : string) (out : list string) : list string :=
  if decide (loglevel >= 0)%Z then out ++ [line] else out.

Definition log1 (line : string) (out : list string) : list string :=
  if decide (loglevel > 0)%Z then out ++ [line] else out.

Definition skip_properties : list string :=
  ["extension"; "modifierExtension"; "language"; "contained"].

(** ** The data model *)

(** One entry of an element's [type] list. *)
Record TypeRef := {
  code : string;
  profile : option string;
}.

(** The [definition] of an element. *)
Record ElementDefinition := {
  d_short : string;
  d_formal : string;
  d_min : Z;
  d_max : string;
  d_type : option (list TypeRef);
}.

Record Element := {
  e_path : string;
  e_definition : option ElementDefinition;
}.

(** A property dictionary, as [process_elem_type] builds it. *)
Record PropertyModel := {
  prop_name : string;
  prop_orig_name : string;
  prop_short : string;
  prop_className : string;
  prop_jsonClass : string;
  prop_isArray : bool;
  prop_isReferenceTo : option string;
  prop_nonoptional : bool;
  prop_isNative : bool;
}.

(** A class dictionary, as [parse_elem] builds it; [resourceName] and
    [is_subclass] are the keys that [process_profile] may add. *)
Record ClassModel := {
  cls_path : string;
  cls_className : string;
  cls_superclass : string;
  cls_short : option string;
  cls_formal : option string;
  cls_properties : list PropertyModel;
  cls_hasNonoptional : bool;
  cls_resourceName : option string;
  cls_is_subclass : bool;
}.

#[global] Instance TypeRef_eq_dec : EqDecision TypeRef.
Proof. solve_decision. Defined.
#[global] Instance PropertyModel_eq_dec : EqDecision PropertyModel.
Proof. solve_decision. Defined.
#[global] Instance ClassModel_eq_dec : EqDecision ClassModel.
Proof. solve_decision. Defined.

Definition set_properties (k : ClassModel) (ps : list PropertyModel) : ClassModel :=
  {| cls_path := cls_path k; cls_className := cls_className k;
     cls_superclass := cls_superclass k; cls_short := cls_short k;
     cls_formal := cls_formal k; cls_properties := ps;
     cls_hasNonoptional := cls_hasNonoptional k;
     cls_resourceName := cls_resourceName k;
     cls_is_subclass := cls_is_subclass k |}.

Definition set_hasNonoptional (k : ClassModel) : ClassModel :=
  {| cls_path := cls_path k; cls_className := cls_className k;
     cls_superclass := cls_superclass k; cls_short := cls_short k;
     cls_formal := cls_formal k; cls_properties := cls_properties k;
     cls_hasNonoptional := true;
     cls_resourceName := cls_resourceName k;
     cls_is_subclass := cls_is_subclass k |}.

(** [klass['properties'].append(prop)], then the [hasNonoptional] update. *)
Definition append_property (k : ClassModel) (p : PropertyModel) : ClassModel :=
  let k' := set_properties k (cls_properties k ++ [p]) in
  if prop_nonoptional p then set_hasNonoptional k' else k'.

Section Compiler.
Context `{cfg : Settings}.

  (** The name of a choice element for the type [tp] (lines 354-359). *)
Definition choice_name (name tp : string) : string :=
    if Py.contains "[x]" name then
      let kl := if decide (tp = "ResourceReference") then "Resource" else tp in
      Py.replace "[x]" (Py.capitalize kl) name
    else name.

  (** The reference target of a type (lines 362-364). *)
Definition resolve_ref (ref : option string) : option string :=
    match ref with
    | Some r =>
        let r := Py.replace "http://hl7.org/fhir/profiles/" "" r in
        Some (default r (classmap !! r))
    | None => None
    end.

  (** The property dictionary of lines 367-378. *)
Definition describe_property (name tp : string) (ref : option string)
      (short : string) (n_min : Z) (n_max : string) : PropertyModel :=
    let name := choice_name name tp in
    let mappedClass := default tp (classmap !! tp) in
    {| prop_name := default name (reservedmap !! name);
       prop_orig_name := name;
       prop_short := short;
       prop_className := mappedClass;
       prop_jsonClass := default jsonmap_default (jsonmap !! mappedClass);
       prop_isArray := bool_decide (n_max = "*");
       prop_isReferenceTo := resolve_ref ref;
       prop_nonoptional := bool_decide (0%Z ≠ n_min);
       prop_isNative := bool_decide (mappedClass ∈ natives) |}.

  (** [process_elem_type]: Python mutates [klass]; the model returns the
      class after the call. [fuel] bounds the depth of the recursion, as the
      interpreter's recursion limit does. *)
Fixpoint process_elem_type (fuel : nat) (klass : ClassModel)
      (name tp : string) (ref : option string) (short : string)
      (formal : option string) (n_min : Z) (n_max : string)
      : result ClassModel :=
    match fuel with
    | O => Raise RecursionError
    | S fuel' =>
        if decide (tp = "*") then
          for_each
            (fun k exp_type =>
               process_elem_type fuel' k name exp_type ref short formal n_min n_max)
            starexpandtypes klass
        else
          Ok (append_property klass
                (describe_property name tp ref short n_min n_max))
    end.

  (** The loop of lines 308-314: the first entry of each type code. *)
Fixpoint collect_types (haz : gset string) (tps : list TypeRef)
      : list (string * option string) :=
    match tps with
    | [] => []
    | tp :: tps' =>
        if decide (code tp ∈ haz) then collect_types haz tps'
        else (code tp, profile tp) :: collect_types ({[code tp]} ∪ haz) tps'
    end.

  (** [''.join(s[:1].upper() + s[1:] for s in path.split('.'))] *)
Definition class_name_of_path (path : string) : string :=
    Py.join "" (map Py.capitalize (Py.split "." path)).

  (** [parse_elem]: returns the owning class after the call (Python mutates
      it) and the new class, if one is made. *)
Definition parse_elem (fuel : nat) (path name : string)
      (definition : ElementDefinition) (klass : option ClassModel)
      : result (option ClassModel * option ClassModel) :=
    let short := d_short definition in
    let formal :=
      if bool_decide (d_formal definition ≠ "") &&
         bool_decide (short = Py.but_last (d_formal definition))
      then None else Some (d_formal definition) in
    let n_min := d_min definition in
    let n_max := d_max definition in
    let types := collect_types ∅ (default [] (d_type definition)) in
    let className := class_name_of_path path in
    let make_new := bool_decide (klass = None) || bool_decide (types = []) in
    let newklass :=
      if make_new then
        Some {| cls_path := path;
                cls_className := className;
                cls_superclass :=
                  match types with
                  | (c, _) :: _ => default resource_default_base (classmap !! c)
                  | [] => resource_default_base
                  end;
                cls_short := Some short;
                cls_formal := formal;
                cls_properties := [];
                cls_hasNonoptional := false;
                cls_resourceName := None;
                cls_is_subclass := false |}
      else None in
    let types :=
      if make_new && bool_decide (types = []) then [(className, None)] else types in
    match klass with
    | Some k =>
        k' ← for_each
               (fun k tr => process_elem_type fuel k name tr.1 tr.2 short formal n_min n_max)
               types k;
        let k'' :=
          if decide (0 < length (cls_properties k'))
          then set_properties k' (Py.sorted_by prop_name (cls_properties k'))
          else k' in
        Ok (Some k'', newklass)
    | None => Ok (None, newklass)
    end.



(** *** The profile compiler *)

Record SearchParamDecl := {
  sp_name : string;
  sp_type : string;
}.

(** One entry of a profile's [structure] list. [s_snapshot] is [Some None]
    when the structure has a [snapshot] without an [element] list. *)
Record Structure := {
  s_type : string;
  s_name : option string;
  s_snapshot : option (option (list Element));
  s_element : option (list Element);
  s_searchParam : option (list SearchParamDecl);
}.

Record Profile := {
  resourceType : string;
  structure : option (list Structure);
  requirements : option string;
  pr_name : option string;
  pr_description : option string;
}.

(** The local variables of the element loop that outlive one round:
    [mapping] holds, for a path, the position of its class in [classes]
    (the two share the class objects), [out] the lines printed so far. *)
Record LoopState := {
  mapping : gmap string nat;
  classes : list ClassModel;
  out : list string;
}.

Definition with_out (st : LoopState) (o : list string) : LoopState :=
  {| mapping := mapping st; classes := classes st; out := o |}.

(** Whether the loop goes on to the next element or leaves ([break]). *)
Inductive flow := Continue | Break.

(** The class a [mapping] entry refers to. *)
Definition mapped_class (st : LoopState) (classpath : string)
    : option (nat * ClassModel) :=
  i ← mapping st !! classpath; k ← classes st !! i; Some (i, k).

Definition mark_resource (k : ClassModel) (main : string)
    (requirements : option string) : ClassModel :=
  {| cls_path := cls_path k; cls_className := cls_className k;
     cls_superclass := cls_superclass k; cls_short := cls_short k;
     cls_formal := requirements; cls_properties := cls_properties k;
     cls_hasNonoptional := cls_hasNonoptional k;
     cls_resourceName := Some main;
     cls_is_subclass := cls_is_subclass k |}.

Definition mark_subclass (k : ClassModel) (main superclass : string)
    (short formal : option string) : ClassModel :=
  {| cls_path := cls_path k; cls_className := main;
     cls_superclass := superclass; cls_short := short;
     cls_formal := formal; cls_properties := cls_properties k;
     cls_hasNonoptional := cls_hasNonoptional k;
     cls_resourceName := cls_resourceName k;
     cls_is_subclass := true |}.

(** [classpath] and [name] of an element path (lines 195-197). *)
Definition classpath_of (elem_path : string) : string :=
  let parts := Py.split "." elem_path in
  if decide (1 < length parts) then Py.join "." (List.removelast parts)
  else List.hd "" parts.

Definition name_of (elem_path : string) : string :=
  List.last (Py.split "." elem_path) "".

(** One round of the element loop (lines 194-229). *)
Definition compile_element (fuel : nat) (profile : Profile)
    (main superclass : string) (is_subclass : bool)
    (st : LoopState) (element : Element) : result (LoopState * flow) :=
  let elem_path := e_path element in
  let classpath := classpath_of elem_path in
  let name := name_of elem_path in
  if bool_decide (name ∈ skip_properties) then
    Ok (with_out st (log1 ("--->  Skipping " +:+ name +:+ " property") (out st)),
        Continue)
  else
    match e_definition element with
    | None =>
        Ok (with_out st (log0 ("xx>  No definition for " +:+ elem_path) (out st)),
            Continue)
    | Some definition =>
        let k := mapped_class st classpath in
        '(k', newklass) ← parse_elem fuel elem_path name definition (snd <$> k);
        let classes1 :=
          match k, k' with
          | Some (i, _), Some k' => <[i := k']> (classes st)
          | _, _ => classes st
          end in
        match newklass with
        | None =>
            Ok ({| mapping := mapping st; classes := classes1; out := out st |},
                Continue)
        | Some newklass =>
            let mapping1 := <[cls_path newklass := length classes1]> (mapping st) in
            if decide (elem_path = main) then
              Ok ({| mapping := mapping1;
                     classes := classes1 ++ [mark_resource newklass main (requirements profile)];
                     out := out st |}, Continue)
            else if is_subclass then
              Ok ({| mapping := mapping1;
                     classes := classes1 ++
                       [mark_subclass newklass main superclass
                          (pr_name profile) (pr_description profile)];
                     out := log1 ("--->  Treating " +:+ main +:+ " as subclass of "
                                  +:+ superclass) (out st) |}, Break)
            else
              Ok ({| mapping := mapping1; classes := classes1 ++ [newklass];
                     out := out st |}, Continue)
        end
    end.

(** The element loop. *)
Fixpoint compile_elements (fuel : nat) (profile : Profile)
    (main superclass : string) (is_subclass : bool)
    (elements : list Element) (st : LoopState) : result LoopState :=
  match elements with
  | [] => Ok st
  | element :: rest =>
      '(st', fl) ← compile_element fuel profile main superclass is_subclass st element;
      match fl with
      | Continue =>
          compile_elements fuel profile main superclass is_subclass rest st'
      | Break => Ok st'
      end
  end.

(** *** Import resolution (lines 231-258) *)

(** The three places of the loop that look at a name share this body:
    a name not seen before is recorded, and imported unless it is native or
    defined inline. *)
Definition note_name (inline : gset string)
    (acc : gset string * list string) (name : string)
    : gset string * list string :=
  let '(names, imports) := acc in
  if decide (name ∈ names) then acc
  else
    ({[name]} ∪ names,
     if bool_decide (name ∉ natives) && bool_decide (name ∉ inline)
     then imports ++ [name] else imports).

Definition note_property (inline : gset string)
    (acc : gset string * list string) (prop : PropertyModel)
    : gset string * list string :=
  let acc := note_name inline acc (prop_className prop) in
  match prop_isReferenceTo prop with
  | Some refTo => note_name inline acc refTo
  | None => acc
  end.

Definition note_class (inline : gset string)
    (acc : gset string * list string) (klass : ClassModel)
    : gset string * list string :=
  foldl (note_property inline)
        (note_name inline acc (cls_superclass klass))
        (cls_properties klass).

(** [info['imports']] *)
Definition compute_imports (classes : list ClassModel) : list string :=
  let inline : gset string := list_to_set (map cls_className classes) in
  Py.sorted (foldl (note_class inline) (∅, []) classes).2.

(** *** Search parameters of one profile (lines 266-282) *)

(** The ASCII characters that [[^\w\d\-]] leaves in place. Python 3 also
    leaves the word characters beyond ASCII; the properties of normalized
    names are stated for ASCII names. *)
Definition name_char (c : ascii) : bool :=
  let n := nat_of_ascii c in
  ((48 <=? n) && (n <=? 57)) || ((65 <=? n) && (n <=? 90)) ||
  ((97 <=? n) && (n <=? 122)) || bool_decide (c = "_"%char) ||
  bool_decide (c = "-"%char).

(** [re.sub(r'[^\w\d\-]', '', name)] *)
Fixpoint strip_name (name : string) : string :=
  match name with
  | EmptyString => EmptyString
  | String c r => if name_char c then String c (strip_name r) else strip_name r
  end.

(** The loop of [_camelCase] from its second round on: [n[0]] raises on an
    empty part. *)
Fixpoint camel_rest (name : string) (parts : list string) : result string :=
  match parts with
  | [] => Ok name
  | EmptyString :: _ => Raise IndexError
  | String c r :: parts' => camel_rest (name +:+ String (Py.upper c) r) parts'
  end.

(** [_camelCase(string, splitter)]; [None] is Python's [None]. *)
Definition _camelCase (str : string) (splitter : ascii)
    : result (option string) :=
  if decide (str = "") then Ok None
  else
    match Py.split splitter str with
    | [] => Ok (Some "")
    | n :: parts => Some <$> camel_rest n parts
    end.

(** The normalized name of a search parameter (lines 274-279). *)
Definition normalize_name (name : string) : result string :=
  let name := strip_name name in
  if Py.contains "-" name then
    if search_generate_camelcase then
      default "None" <$> _camelCase name "-"
    else Ok (Py.replace "-" "_" name)
  else Ok name.

(** ['{}|{}|{}'.format(name, orig, tp)] *)
Definition search_key (name orig tp : string) : string :=
  name +:+ "|" +:+ orig +:+ "|" +:+ tp.

(** One round of the loop over [searchParam]. *)
Definition collect_search_param (acc : gset string * gset string)
    (param : SearchParamDecl) : result (gset string * gset string) :=
  let '(search_params, supported) := acc in
  let name := sp_name param in
  let tp := sp_type param in
  if bool_decide (name ≠ "") && bool_decide (tp ≠ "") then
    let orig := name in
    name ← normalize_name name;
    Ok ({[search_key name orig tp]} ∪ search_params, {[name]} ∪ supported)
  else Ok acc.

(** *** [process_profile] *)

(** What [process_profile] returns for a profile it compiled, with
    [info['imports']]. *)
Record Compiled := {
  c_main : string;
  c_classes : list ClassModel;
  c_search_params : gset string;
  c_supported : gset string;
  c_imports : list string;
}.

(** [os.path.basename] *)
Definition basename (path : string) : string :=
  List.last (Py.split "/" path) "".

(** The elements of a structure (lines 188-191). *)
Definition structure_elements (structure : Structure) : list Element :=
  match s_snapshot structure with
  | Some snapshot => default [] snapshot
  | None => default [] (s_element structure)
  end.

(** [main] and [is_subclass] (lines 174-180). *)
Definition main_of (structure : Structure) : string :=
  default (s_type structure) (s_name structure).

Definition is_subclass_of (structure : Structure) : bool :=
  match s_name structure with
  | Some main => bool_decide (main ≠ s_type structure)
  | None => false
  end.

(** [process_profile] on the profile read from [path]: [None] stands for
    the tuple of four [None]; the second component holds the printed lines.
    Rendering is left out. *)
Definition process_profile (fuel : nat) (path : string) (profile : Profile)
    : result (option Compiled * list string) :=
  if decide (resourceType profile = "Profile") then
    match structure profile with
    | None | Some [] =>
        Ok (None, log0 ("xx>  Profile " +:+ path +:+ " has no structure") [])
    | Some (structure :: _) =>
        let filename := basename path in
        let superclass := s_type structure in
        let main := main_of structure in
        let is_subclass := is_subclass_of structure in
        let out0 :=
          log0 ("-->  Parsing profile " +:+ main +:+ "  --  " +:+ filename) [] in
        st ← compile_elements fuel profile main superclass is_subclass
               (structure_elements structure)
               {| mapping := ∅; classes := []; out := out0 |};
        let imports := compute_imports (classes st) in
        '(search_params, supported) ←
          for_each collect_search_param (default [] (s_searchParam structure)) (∅, ∅);
        Ok (Some {| c_main := main; c_classes := classes st;
                    c_search_params := search_params;
                    c_supported := supported;
                    c_imports := imports |}, out st)
    end
  else Raise AssertionError.

(** *** The accumulators of [parse] (lines 94-117) *)

Record Registry := {
  all_classes : gmap string ClassModel;
  factories : gset string;
  search_params : gset string;
  in_profiles : gmap string (gset string);
  reg_out : list string;
}.

Definition empty_registry : Registry :=
  {| all_classes := ∅; factories := ∅; search_params := ∅; in_profiles := ∅;
     reg_out := [] |}.

(** The body of [for klass in classes] (lines 104-109). *)
Definition register_class (acc : gmap string ClassModel * list string)
    (klass : ClassModel) : gmap string ClassModel * list string :=
  let cn := cls_className klass in
  match acc.1 !! cn with
  | Some _ => (acc.1, log1 ("xxx>  Already have class " +:+ cn) acc.2)
  | None => (<[cn := klass]> acc.1, acc.2)
  end.

(** The body of [for spp in supp_profs] (lines 113-117). *)
Definition note_supported (profile_name : string) (spp : string)
    (in_profiles : gmap string (gset string)) : gmap string (gset string) :=
  match in_profiles !! spp with
  | Some profs => <[spp := {[profile_name]} ∪ profs]> in_profiles
  | None => <[spp := {[profile_name]}]> in_profiles
  end.

(** One round of the loop over the profiles, given what [process_profile]
    returned and printed. *)
Definition parse_step (reg : Registry) (res : option Compiled * list string)
    : Registry :=
  let out1 := reg_out reg ++ res.2 in
  match res.1 with
  | None =>
      {| all_classes := all_classes reg; factories := factories reg;
         search_params := search_params reg; in_profiles := in_profiles reg;
         reg_out := out1 |}
  | Some c =>
      let registered := foldl register_class (all_classes reg, out1) (c_classes c) in
      {| all_classes := registered.1;
         factories := {[c_main c]} ∪ factories reg;
         search_params := search_params reg ∪ c_search_params c;
         in_profiles :=
           set_fold (note_supported (c_main c)) (in_profiles reg) (c_supported c);
         reg_out := registered.2 |}
  end.

(** The loop over the profile files, in the order [glob] lists them. *)
Fixpoint parse_profiles (fuel : nat) (profiles : list (string * Profile))
    (reg : Registry) : result Registry :=
  match profiles with
  | [] => Ok reg
  | (path, profile) :: rest =>
      res ← process_profile fuel path profile;
      parse_profiles fuel rest (parse_step reg res)
  end.

(** *** [process_search] *)

Record Extension := {
  ext_name : string;
  ext_original : string;
  ext_type : string;
}.

(** The data handed to the template of the search parameters. *)
Record SearchData := {
  extensions : list Extension;
  sd_in_profiles : gmap string (gset string);
  dupes : gset string;
}.

(** One round of the loop over [sorted(params)] (lines 410-416). *)
Definition merge_param (acc : list Extension * gset string) (param : string)
    : result (list Extension * gset string) :=
  let '(extensions, dupes) := acc in
  match Py.split "|" param with
  | [name; orig; typ] =>
      let finalname := default name (reservedmap !! name) in
      let dupes :=
        foldl (fun dupes d =>
                 if decide (finalname = ext_name d) then {[finalname]} ∪ dupes
                 else dupes) dupes extensions in
      Ok (extensions ++
            [{| ext_name := finalname; ext_original := orig; ext_type := typ |}],
          dupes)
  | _ => Raise ValueError
  end.

(** [process_search]: [None] when the search parameters are switched off. *)
Definition process_search (params : gset string)
    (in_profiles : gmap string (gset string)) : result (option SearchData) :=
  if write_searchparams then
    '(extensions, dupes) ← for_each merge_param (Py.sorted (elements params)) ([], ∅);
    Ok (Some {| extensions := extensions; sd_in_profiles := in_profiles;
                dupes := dupes |})
  else Ok None.

End Compiler.

(** ** The example matcher *)

(** A parsed JSON document. The items of an object are in insertion order
    and their keys are distinct, as in the [dict] that [json.load] returns. *)
#[local] Unset Elimination Schemes.
Inductive json :=
  | JNull
  | JBool (b : bool)
  | JInt (n : Z)
  | JFloat (lexeme : string)
  | JStr (s : string)
  | JArr (vs : list json)
  | JObj (items : list (string * json)).
#[local] Set Elimination Schemes.

(** One entry of a test list: the keys [path], [class] and [value]. *)
Record TestAssertion := {
  ta_path : string;
  ta_class : string;
  ta_value : json;
}.

(** [utest.get(key)] *)
Fixpoint dict_get (key : string) (items : list (string * json)) : option json :=
  match items with
  | [] => None
  | (k, v) :: items' => if decide (k = key) then Some v else dict_get key items'
  end.

(** [del utest[key]] *)
Definition dict_del (key : string) (items : list (string * json))
    : list (string * json) :=
  filter (fun kv => kv.1 ≠ key) items.

(** The line feed, and the two characters it is printed as. *)
Definition newline : string := String (ascii_of_nat 10) EmptyString.
Definition escaped_newline : string := String (ascii_of_nat 92) "n".

Section Matcher.
Context `{cfg : Settings}.

(** [props] of [process_unittest_properties]: a later property of the same
    name replaces an earlier one. *)
Definition props_of (klass : ClassModel) : gmap string PropertyModel :=
  foldl (fun props cp => <[prop_name cp := cp]> props) ∅ (cls_properties klass).

(** The body of [process_unittest_properties], over the function it calls
    for each value. *)
Section Properties.
Variable handle : string → json → string → result (list TestAssertion).

(** [for v in val] with its counter [i] (lines 519-523). *)
Fixpoint handle_items (path propClass : string) (vs : list json) (i : nat)
    : result (list TestAssertion) :=
  match vs with
  | [] => Ok []
  | v :: vs' =>
      tests ← handle (unittest_format_path_index path i) v propClass;
      more ← handle_items path propClass vs' (S i);
      Ok (tests ++ more)
  end.

(** [for key, val in utest.items()] (lines 509-525). A prefix that is
    [None] or empty leaves the key as the path. *)
Fixpoint handle_properties (props : gmap string PropertyModel)
    (prefix : option string) (items : list (string * json))
    : result (list TestAssertion) :=
  match items with
  | [] => Ok []
  | (key, val) :: items' =>
      tests ←
        match props !! key with
        | None => Ok []
        | Some prop =>
            let propClass := prop_className prop in
            let path :=
              match prefix with
              | Some (String c r) => unittest_format_path_key (String c r) key
              | _ => key
              end in
            match val with
            | JArr vs => handle_items path propClass vs 0
            | _ => handle (unittest_format_path_prepare path) val propClass
            end
        end;
      more ← handle_properties props prefix items';
      Ok (tests ++ more)
  end.
End Properties.

(** [handle_unittest_property]; the first [assert] holds of every path and
    the third of every class name, the second fails on [null]. *)
Fixpoint handle_unittest_property (classes : gmap string ClassModel)
    (path : string) (value : json) (klass : string) {struct value}
    : result (list TestAssertion) :=
  match value with
  | JNull => Raise AssertionError
  | JObj items =>
      match classes !! default klass (subclassmap !! klass) with
      | None => Ok []
      | Some subklass =>
          handle_properties (handle_unittest_property classes)
            (props_of subklass) (Some path) items
      end
  | JStr s =>
      Ok [{| ta_path := path; ta_class := klass;
             ta_value := JStr (Py.replace newline escaped_newline s) |}]
  | _ => Ok [{| ta_path := path; ta_class := klass; ta_value := value |}]
  end.

(** [process_unittest_properties] *)
Definition process_unittest_properties (utest : list (string * json))
    (klass : ClassModel) (classes : gmap string ClassModel)
    (prefix : option string) : result (list TestAssertion) :=
  handle_properties (handle_unittest_property classes) (props_of klass) prefix utest.

(** [process_unittest] on the document read from the file: [None] stands
    for the pair of two [None]. The document [null] fails the first
    [assert]; any other document that is no object has no [get]. The line
    that is printed for a class that is not found is left out. *)
Definition process_unittest (utest : json) (classes : gmap string ClassModel)
    : result (option (string * list TestAssertion)) :=
  match utest with
  | JNull => Raise AssertionError
  | JObj items =>
      match dict_get "resourceType" items with
      | None | Some JNull => Raise AssertionError
      | Some (JArr _) | Some (JObj _) => Raise TypeError
      | Some (JStr className) =>
          match classes !! className with
          | None => Ok None
          | Some klass =>
              tests ← process_unittest_properties
                        (dict_del "resourceType" items) klass classes None;
              Ok (Some (className, Py.sorted_by ta_path tests))
          end
      | Some _ => Ok None
      end
  | _ => Raise AttributeError
  end.

End Matcher.


(** ** The version marker (lines 74-91 of [parse]) *)

(** One round of the loop over the lines of [version.info]: a line with a
    [=] is cut at most twice and unpacked into two names. *)
Definition version_step (version : option string) (line : string)
    : result (option string) :=
  if Py.contains "=" line then
    match Py.split_max "=" 2 line with
    | [n; v] => Ok (if decide (n = "FhirVersion") then Some v else version)
    | _ => Raise ValueError
    end
  else Ok version.

(** The version that [parse] reads from the text of [version.info], up to
    the [assert]. *)
Definition read_version (text : string) : result string :=
  version ← for_each version_step (Py.split (ascii_of_nat 10) text) None;
  match version with
  | Some v => Ok v
  | None => Raise AssertionError
  end.

(** ** The loop over the examples (lines 432-445 of [process_unittests]) *)

(** [os.path.join(a, b)] on a POSIX system. *)
Definition path_join (a b : string) : string :=
  match b with
  | String "/" _ => b
  | _ =>
      if decide (a = "") then b
      else if String.prefix "/" (String.rev a) then a +:+ b
      else a +:+ "/" +:+ b
  end.

(** One entry of a class's test list: the keys [filename] and [tests]. *)
Record UnitTest := {
  ut_filename : string;
  ut_tests : list TestAssertion;
}.

Section UnitTests.
Context `{cfg : Settings}.

(** One round of the loop, for the example read from the file [file.1];
    [prefix] is [unittest_filename_prefix] of [settings.py]. What the round
    prints is left out. *)
Definition collect_unittest (prefix : string)
    (classes : gmap string ClassModel)
    (all_tests : gmap string (list UnitTest)) (file : string * json)
    : result (gmap string (list UnitTest)) :=
  returned ← process_unittest file.2 classes;
  match returned with
  | None => Ok all_tests
  | Some (class_name, tests) =>
      let test := {| ut_filename := path_join prefix (basename file.1);
                     ut_tests := tests |} in
      match all_tests !! class_name with
      | Some known => Ok (<[class_name := known ++ [test]]> all_tests)
      | None => Ok (<[class_name := [test]]> all_tests)
      end
  end.

(** [all_tests] after the loop over the example files, in the order [glob]
    lists them; printing, rendering and copying are left out. *)
Definition process_unittests (prefix : string) (files : list (string * json))
    (classes : gmap string ClassModel)
    : result (gmap string (list UnitTest)) :=
  for_each (collect_unittest prefix classes) files ∅.

End UnitTests.

(** * The vocabulary of the properties *)

(** The order of [sorted]: the keys of neighbours ascend. *)
Definition key_le {A : Type} (key : A → string) (x y : A) : Prop :=
  String.leb (key x) (key y) = true.

(** All characters of a text pass a test. *)
Fixpoint all_chars (test : ascii → bool) (s : string) : bool :=
  match s with
  | EmptyString => true
  | String c r => test c && all_chars test r
  end.

(** A text of ASCII characters. On such texts the character operations of
    the embedding are those of Python, whose [upper] and [\w] go beyond
    ASCII by the tables of Unicode. *)
Definition ascii_text (s : string) : Prop :=
  all_chars (fun c => nat_of_ascii c <? 128) s = true.

(** The small letters and their capitals, in the order of the alphabet. *)
Definition small_letters : string := "abcdefghijklmnopqrstuvwxyz".
Definition capital_letters : string := "ABCDEFGHIJKLMNOPQRSTUVWXYZ".

(** The capital of a small letter, found at its place in the alphabet; any
    other character is left as it is. *)
Fixpoint capital_in (smalls capitals : string) (c : ascii) : ascii :=
  match smalls, capitals with
  | String a smalls', String k capitals' =>
      if decide (c = a) then k else capital_in smalls' capitals' c
  | _, _ => c
  end.

Definition capital (c : ascii) : ascii :=
  capital_in small_letters capital_letters c.

(** A text with its first letter capitalized. *)
Definition first_capital (s : string) : string :=
  match s with
  | EmptyString => EmptyString
  | String c r => String (capital c) r
  end.

Section Vocabulary.
Context `{cfg : Settings}.

(** Ascending order on strings, by character codes: every element is at
    most each of the elements after it. *)
Definition ascending : list string → Prop := StronglySorted (key_le id).

(** What the import loop keeps true of [names] and [imports]. *)
Definition imports_inv (inline : gset string)
    (acc : gset string * list string) : Prop :=
  NoDup acc.2 ∧
  ∀ n, n ∈ acc.2 → n ∈ acc.1 ∧ (n ∉ natives) ∧ (n ∉ inline).

(** The classes of a run of profile compilations, in the order in which
    they reach the registry. *)
Definition compiled_classes (results : list (option Compiled * list string))
    : list ClassModel :=
  results ≫= fun res =>
    match res.1 with Some c => c_classes c | None => [] end.

(** The first class of a list that carries a given name. *)
Definition first_named (cn : string) (l : list ClassModel) : option ClassModel :=
  head (filter (fun k => cls_className k = cn) l).



(** The reading of C6 that the code does not follow: the name that the
    property is declared under is the base name with the placeholder
    replaced by the capitalized type. *)
Definition choice_names_property (fuel : nat) (klass : ClassModel)
    (name tp : string) (ref : option string) (short : string)
    (formal : option string) (n_min : Z) (n_max : string) : Prop :=
  ∃ klass' p,
    process_elem_type fuel klass name tp ref short formal n_min n_max = Ok klass' ∧
    cls_properties klass' = cls_properties klass ++ [p] ∧
    prop_name p =
      Py.replace "[x]"
        (first_capital (if decide (tp = "ResourceReference") then "Resource" else tp))
        name.




(** The line printed for an element without definition. *)
Definition no_definition_line (e : Element) : string :=
  "xx>  No definition for " +:+ e_path e.

(** The reading of C3 that the code does not follow: a profile with an
    element without definition yields no class. *)
Definition missing_definition_aborts (fuel : nat) (path : string)
    (profile : Profile) : Prop :=
  ∀ (s : Structure) rest e,
    structure profile = Some (s :: rest) →
    e ∈ structure_elements s →
    e_definition e = None →
    ∃ res, process_profile fuel path profile = Ok res ∧
           match res.1 with Some c => c_classes c = [] | None => True end.


(** The name of a parameter in the table: the normalized name after the
    reserved words are mapped. *)
Definition final_name (name : string) : string :=
  default name (reservedmap !! name).

(** A key of the parameter set: it has exactly two separators. *)
Definition three_fields (param : string) : Prop :=
  length (Py.split "|" param) = 3.

(** The reading of C9 that the code does not follow: the flag of a
    collision is the normalized name itself. *)
Definition collision_flags_normalized_name (params : gset string)
    (in_profiles : gmap string (gset string)) (o1 o2 n : string) : Prop :=
  ∃ data,
    process_search params in_profiles = Ok (Some data) ∧
    n ∈ dupes data ∧
    (∃ e, e ∈ extensions data ∧ ext_original e = o1) ∧
    (∃ e, e ∈ extensions data ∧ ext_original e = o2).

(** The values of a property that are handed to [handle_unittest_property]:
    the elements of an array, and any other value itself. *)
Definition handled_values (val : json) : list json :=
  match val with
  | JArr vs => vs
  | _ => [val]
  end.

(** [null_reached classes value klass]: matching [value] against the class
    name [klass] comes upon a [null], which is [value] itself or sits, in an
    object whose class is found, under a key that names a property of the
    class, as its value or as an element of its array. *)
Inductive null_reached (classes : gmap string ClassModel)
    : json → string → Prop :=
  | null_itself klass : null_reached classes JNull klass
  | null_inside items klass subklass key val prop v :
      classes !! default klass (subclassmap !! klass) = Some subklass →
      (key, val) ∈ items →
      props_of subklass !! key = Some prop →
      v ∈ handled_values val →
      null_reached classes v (prop_className prop) →
      null_reached classes (JObj items) klass.

(** The same for the items of the document, matched against its class. *)
Definition null_in_properties (classes : gmap string ClassModel)
    (klass : ClassModel) (items : list (string * json)) : Prop :=
  ∃ key val prop v,
    (key, val) ∈ items ∧
    props_of klass !! key = Some prop ∧
    v ∈ handled_values val ∧
    null_reached classes v (prop_className prop).

(** Without a [null] in its way, [handle_unittest_property] returns. *)
Definition returns_unless_null (classes : gmap string ClassModel)
    (value : json) : Prop :=
  ∀ klass path,
    ¬ null_reached classes value klass →
    is_Ok (handle_unittest_property classes path value klass).

End Vocabulary.

(** * Sample inputs *)

(** A configuration to run the program on. *)
Definition sample_settings : Settings := {|
  classmap := {[ "string" := "String"; "boolean" := "Bool";
                 "Resource" := "FHIRResource" ]};
  natives := {[ "String"; "Bool" ]};
  jsonmap := {[ "String" := "String"; "Bool" := "Bool" ]};
  jsonmap_default := "NSDictionary";
  reservedmap := {[ "class" := "klass"; "description" := "text" ]};
  starexpandtypes := ["string"; "HumanName"];
  subclassmap := {[ "Age" := "Quantity" ]};
  resource_default_base := "FHIRElement";
  search_generate_camelcase := true;
  write_searchparams := true;
  ptrn_filenames_lowercase := false;
  unittest_format_path_key := fun prefix key => prefix +:+ "." +:+ key;
  unittest_format_path_index := fun path i => path +:+ "[" +:+ pretty i +:+ "]";
  unittest_format_path_prepare := fun path => path;
|}.

(** The sample tables with a rename for a choice name. *)
Definition renaming_settings : Settings := {|
  classmap := @classmap sample_settings;
  natives := @natives sample_settings;
  jsonmap := @jsonmap sample_settings;
  jsonmap_default := @jsonmap_default sample_settings;
  reservedmap := {[ "class" := "klass"; "valueBoolean" := "flag" ]};
  starexpandtypes := @starexpandtypes sample_settings;
  subclassmap := @subclassmap sample_settings;
  resource_default_base := @resource_default_base sample_settings;
  search_generate_camelcase := @search_generate_camelcase sample_settings;
  write_searchparams := @write_searchparams sample_settings;
  ptrn_filenames_lowercase := @ptrn_filenames_lowercase sample_settings;
  unittest_format_path_key := @unittest_format_path_key sample_settings;
  unittest_format_path_index := @unittest_format_path_index sample_settings;
  unittest_format_path_prepare := @unittest_format_path_prepare sample_settings;
|}.

Definition sample_definition (short : string) (n_min : Z) (n_max : string)
    (codes : list string) : ElementDefinition :=
  {| d_short := short; d_formal := short +:+ "."; d_min := n_min;
     d_max := n_max;
     d_type := Some (map (fun c => {| code := c; profile := None |}) codes) |}.

Definition sample_element (path : string) (d : ElementDefinition) : Element :=
  {| e_path := path; e_definition := Some d |}.

Definition patient_structure : Structure :=
  {| s_type := "Patient"; s_name := None; s_snapshot := None;
     s_element := Some
       [ sample_element "Patient" (sample_definition "A patient" 1 "1" ["Resource"]);
         sample_element "Patient.name" (sample_definition "Names" 0 "*" ["*"]);
         sample_element "Patient.extension" (sample_definition "More" 0 "*" ["Extension"]);
         sample_element "Patient.contact" (sample_definition "Contacts" 0 "*" []);
         sample_element "Patient.contact.value[x]"
           (sample_definition "Value" 1 "1" ["string"; "ResourceReference"]) ];
     s_searchParam := Some
       [ {| sp_name := "address-city"; sp_type := "string" |};
         {| sp_name := "name"; sp_type := "string" |} ] |}.

Definition patient_profile : Profile :=
  {| resourceType := "Profile"; structure := Some [patient_structure];
     requirements := None; pr_name := None; pr_description := None |}.

(** A class without properties, to hand to the element compiler. *)
Definition sample_class : ClassModel :=
  {| cls_path := "Extension"; cls_className := "Extension";
     cls_superclass := "FHIRElement"; cls_short := Some "Extension";
     cls_formal := None; cls_properties := []; cls_hasNonoptional := false;
     cls_resourceName := None; cls_is_subclass := false |}.

Definition extension_element : Element :=
  sample_element "Patient.extension" (sample_definition "More" 0 "*" ["Extension"]).

Definition undefined_element : Element :=
  {| e_path := "Patient.gender"; e_definition := None |}.

Definition initial_state : LoopState :=
  {| mapping := ∅; classes := []; out := [] |}.

(** A profile with an element without definition between two that have one. *)
Definition gap_profile : Profile :=
  {| resourceType := "Profile";
     structure := Some
       [ {| s_type := "Patient"; s_name := None; s_snapshot := None;
            s_element := Some
              [ sample_element "Patient"
                  (sample_definition "A patient" 1 "1" ["Resource"]);
                undefined_element;
                sample_element "Patient.active"
                  (sample_definition "Active" 0 "1" ["boolean"]) ];
            s_searchParam := None |} ];
     requirements := None; pr_name := None; pr_description := None |}.

(** [Age], a named subclass of [Quantity]: the paths of its elements start
    with the declared type. *)
Definition age_extension : Element :=
  sample_element "Quantity.extension" (sample_definition "More" 0 "*" ["Extension"]).

Definition age_root_definition : ElementDefinition :=
  sample_definition "A duration" 1 "1" ["Type"].

Definition age_root : Element := sample_element "Quantity" age_root_definition.

Definition age_value : Element :=
  sample_element "Quantity.value" (sample_definition "Value" 0 "1" ["decimal"]).

Definition age_structure : Structure :=
  {| s_type := "Quantity"; s_name := Some "Age"; s_snapshot := None;
     s_element := Some [age_extension; age_root; age_value];
     s_searchParam := None |}.

Definition age_profile : Profile :=
  {| resourceType := "Profile"; structure := Some [age_structure];
     requirements := None; pr_name := Some "Age";
     pr_description := Some "An age" |}.



(** Two declarations, [class] and [cl.ass], of one normalized name that is
    a reserved word. *)
Definition class_params : gset string :=
  {[ search_key "class" "class" "token"; search_key "class" "cl.ass" "token" ]}.

(** The registry after [patient_profile] is compiled. *)
Definition patient_classes : gmap string ClassModel :=
  match parse_profiles (cfg := sample_settings) 2
          [("patient.profile.json", patient_profile)] empty_registry with
  | Ok reg => all_classes reg
  | Raise _ => ∅
  end.

(** An example whose [contact] property holds a [null]. *)
Definition null_document : list (string * json) :=
  [ ("resourceType", JStr "Patient"); ("contact", JNull) ].

(** An example without a [null] under a matched key; the key [unknown] names
    no property. *)
Definition doe_document : list (string * json) :=
  [ ("resourceType", JStr "Patient");
    ("contact", JArr [JObj [("valueString", JStr ("line1" +:+ newline +:+ "line2"))]]);
    ("unknown", JNull) ].

(** * The vocabulary of the further properties *)

(** The properties of a class are in the order of their names. *)
Definition name_sorted (ps : list PropertyModel) : Prop :=
  StronglySorted (key_le prop_name) ps.

(** [hasNonoptional] says whether a property of the class is required. *)
Definition flag_right (k : ClassModel) : Prop :=
  cls_hasNonoptional k = true ↔
  ∃ p, p ∈ cls_properties k ∧ prop_nonoptional p = true.

(** A class as [parse_elem] makes it for a path, before [process_profile]
    marks it. *)
Definition fresh_class (path : string) (k : ClassModel) : Prop :=
  cls_path k = path ∧ cls_className k = class_name_of_path path ∧
  cls_properties k = [] ∧ cls_hasNonoptional k = false ∧
  cls_resourceName k = None ∧ cls_is_subclass k = false.

(** The class is the one that was handed to [parse_elem] with properties
    added: everything but the properties and the flag is as before. *)
Definition same_class (k k' : ClassModel) : Prop :=
  cls_path k' = cls_path k ∧ cls_className k' = cls_className k ∧
  cls_superclass k' = cls_superclass k ∧ cls_short k' = cls_short k ∧
  cls_formal k' = cls_formal k ∧ cls_resourceName k' = cls_resourceName k ∧
  cls_is_subclass k' = cls_is_subclass k.

(** Every entry of [mapping] leads to a class of that path. *)
Definition mapping_sound (st : LoopState) : Prop :=
  ∀ path i, mapping st !! path = Some i →
    ∃ k, classes st !! i = Some k ∧ cls_path k = path.

(** The way [process_profile] leaves the marks of a class: the resource
    name sits on the classes of the main path and on no other. *)
Definition resource_marked (main : string) (k : ClassModel) : Prop :=
  cls_resourceName k = if decide (cls_path k = main) then Some main else None.


Section FurtherVocabulary.
Context `{cfg : Settings}.

(** The names that the import loop looks at, class by class: the
    superclass, then for each property its class and its reference target. *)
Definition referenced_by_property (prop : PropertyModel) : list string :=
  prop_className prop ::
  match prop_isReferenceTo prop with Some refTo => [refTo] | None => [] end.

Definition referenced_by_class (klass : ClassModel) : list string :=
  cls_superclass klass :: (cls_properties klass ≫= referenced_by_property).

Definition referenced (classes : list ClassModel) : list string :=
  classes ≫= referenced_by_class.

End FurtherVocabulary.

(** A character is one of those of a text. *)
Fixpoint one_of (alphabet : string) (c : ascii) : bool :=
  match alphabet with
  | EmptyString => false
  | String a r => bool_decide (c = a) || one_of r c
  end.

(** The characters of an identifier: letters, digits and the underscore. *)
Definition ident_char (c : ascii) : bool :=
  one_of small_letters c || one_of capital_letters c ||
  one_of "0123456789_" c.

Section SearchVocabulary.
Context `{cfg : Settings}.

(** A declaration that the loop over [searchParam] takes up, with its
    normalized name: it has a name and a type, and the name is normalized
    without an error. *)
Definition declares (param : SearchParamDecl) (n : string) : Prop :=
  sp_name param ≠ "" ∧ sp_type param ≠ "" ∧
  normalize_name (sp_name param) = Ok n.

End SearchVocabulary.

(** The keys of a registry are the names of its classes. *)
Definition keyed_by_name (registry : gmap string ClassModel) : Prop :=
  ∀ cn k, registry !! cn = Some k → cls_className k = cn.

(** An entry of a test list whose value is a text holds no line feed. *)
Definition on_one_line (test : TestAssertion) : Prop :=
  ∀ s, ta_value test = JStr s → Py.contains newline s = false.

Section MatcherVocabulary.
Context `{cfg : Settings}.

(** What [handle_unittest_property] returns for a value is on one line. *)
Definition stays_on_one_line (classes : gmap string ClassModel)
    (value : json) : Prop :=
  ∀ klass path tests,
    handle_unittest_property classes path value klass = Ok tests →
    Forall on_one_line tests.

(** [handle_unittest_property] raises on a value for a [null] only, and
    then the assertion error. *)
Definition raises_on_null_only (classes : gmap string ClassModel)
    (value : json) : Prop :=
  ∀ klass path e,
    handle_unittest_property classes path value klass = Raise e →
    e = AssertionError ∧ null_reached classes value klass.

End MatcherVocabulary.

(** The number of times a character stands in a text. *)
Fixpoint count_char (c : ascii) (s : string) : nat :=
  match s with
  | EmptyString => 0
  | String a r => (if decide (a = c) then 1 else 0) + count_char c r
  end.

(** A line of [version.info] that can be unpacked into a name and a value:
    it holds at most one [=]. *)
Definition unpacks (line : string) : Prop := count_char "=" line < 2.

(** A line that starts with the name of the version and a [=]. *)
Definition sets_version (line : string) : bool :=
  String.prefix "FhirVersion=" line.

Section UnitTestVocabulary.
Context `{cfg : Settings}.

(** The entry that an example file adds to the tests of a class: none when
    the example is of another class, or of none. *)
Definition test_for (prefix : string) (classes : gmap string ClassModel)
    (cn : string) (file : string * json) : option UnitTest :=
  match process_unittest file.2 classes with
  | Ok (Some (class_name, tests)) =>
      if decide (class_name = cn)
      then Some {| ut_filename := path_join prefix (basename file.1);
                   ut_tests := tests |}
      else None
  | _ => None
  end.

End UnitTestVocabulary.

(** * Properties *)

(** ** Sorting *)

Section SortedFacts.
Context {A : Type} (key : A → string).

Lemma insert_by_perm (x : A) (l : list A) :
  Permutation (Py.insert_by key x l) (x :: l).
Proof.
  induction l as [|y l IH]; simpl; [done|].
  destruct (String.leb (key x) (key y)); [done|].
  rewrite IH. apply perm_swap.
Qed.

Lemma sorted_by_perm (l : list A) : Permutation (Py.sorted_by key l) l.
Proof.
  induction l as [|x l IH]; simpl; [done|].
  by rewrite insert_by_perm, IH.
Qed.

Lemma insert_by_sorted (x : A) (l : list A) :
  Sorted (key_le key) l → Sorted (key_le key) (Py.insert_by key x l).
Proof.
  induction 1 as [|y l Hl IH Hhd]; simpl.
  - by repeat constructor.
  - destruct (String.leb (key x) (key y)) eqn:Hxy.
    + constructor; [by constructor|]. by constructor.
    + constructor; [done|].
      assert (key_le key y x) as Hyx.
      { unfold key_le. destruct (String.leb_total (key x) (key y)); congruence. }
      destruct Hhd as [|z l' Hz]; simpl; [by constructor|].
      destruct (String.leb (key x) (key z)); by constructor.
Qed.

Lemma sorted_by_sorted (l : list A) :
  Sorted (key_le key) (Py.sorted_by key l).
Proof.
  induction l as [|x l IH]; simpl; [constructor|]. by apply insert_by_sorted.
Qed.

End SortedFacts.

Lemma string_leb_trans (a b c : string) :
  String.leb a b = true → String.leb b c = true → String.leb a c = true.
Proof.
  unfold String.leb. revert b c.
  induction a as [|x a IH]; intros [|y b] [|z c]; simpl; try done.
  unfold Ascii.compare.
  destruct (N.compare_spec (N_of_ascii x) (N_of_ascii y)) as [Hxy|Hxy|Hxy];
    destruct (N.compare_spec (N_of_ascii y) (N_of_ascii z)) as [Hyz|Hyz|Hyz];
    destruct (N.compare_spec (N_of_ascii x) (N_of_ascii z)) as [Hxz|Hxz|Hxz];
    try done; try lia.
  apply IH.
Qed.

Lemma sorted_ascending (l : list string) : ascending (Py.sorted l).
Proof.
  apply Sorted_StronglySorted; [|apply sorted_by_sorted].
  intros a b c. apply string_leb_trans.
Qed.

Lemma sorted_elem_of (l : list string) (x : string) : x ∈ Py.sorted l ↔ x ∈ l.
Proof. unfold Py.sorted. by rewrite sorted_by_perm. Qed.

Lemma sorted_NoDup (l : list string) : NoDup (Py.sorted l) ↔ NoDup l.
Proof. unfold Py.sorted. by rewrite sorted_by_perm. Qed.

(** ** The import list *)

Section Imports.
Context `{cfg : Settings}.

Lemma note_name_inv inline acc name :
  imports_inv inline acc → imports_inv inline (note_name inline acc name).
Proof.
  destruct acc as [names imports]. intros [Hnd Hin]. unfold note_name.
  destruct (decide (name ∈ names)) as [|Hfresh]; [done|].
  destruct (bool_decide (name ∉ natives) && bool_decide (name ∉ inline)) eqn:Hc.
  - apply andb_true_iff in Hc as [Hn Hi].
    apply bool_decide_eq_true in Hn, Hi.
    split; simpl.
    + apply NoDup_app. split; [done|]. split; [|apply NoDup_singleton].
      intros x Hx Hx'. apply list_elem_of_singleton in Hx'. subst x.
      apply Hfresh. by apply Hin.
    + intros n Hn'. apply elem_of_app in Hn' as [Hn'|Hn'].
      * destruct (Hin n Hn') as (Hnames & Hnat & Hinl).
        split; [|done]. apply elem_of_union. by right.
      * apply list_elem_of_singleton in Hn'. subst n.
        split; [|done]. apply elem_of_union. left. by apply elem_of_singleton.
  - split; simpl; [done|]. intros n Hn'.
    destruct (Hin n Hn') as (Hnames & Hnat & Hinl).
    split; [|done]. apply elem_of_union. by right.
Qed.

Lemma note_property_inv inline acc prop :
  imports_inv inline acc → imports_inv inline (note_property inline acc prop).
Proof.
  intros H. unfold note_property.
  destruct (prop_isReferenceTo prop); auto using note_name_inv.
Qed.

Lemma note_class_inv inline acc klass :
  imports_inv inline acc → imports_inv inline (note_class inline acc klass).
Proof.
  intros H. unfold note_class.
  generalize (note_name_inv inline acc (cls_superclass klass) H).
  generalize (note_name inline acc (cls_superclass klass)).
  induction (cls_properties klass) as [|p ps IH]; intros acc' H'; simpl; [done|].
  apply IH. by apply note_property_inv.
Qed.

Lemma note_classes_inv inline acc classes :
  imports_inv inline acc →
  imports_inv inline (foldl (note_class inline) acc classes).
Proof.
  revert acc. induction classes as [|k ks IH]; intros acc H; simpl; [done|].
  apply IH. by apply note_class_inv.
Qed.

Lemma compute_imports_clean (classes : list ClassModel) :
  (∀ n, n ∈ compute_imports classes →
        (n ∉ natives) ∧ ∀ k, k ∈ classes → cls_className k ≠ n) ∧
  NoDup (compute_imports classes) ∧
  ascending (compute_imports classes).
Proof.
  unfold compute_imports.
  set (inline := list_to_set (map cls_className classes) : gset string).
  destruct (note_classes_inv inline (∅, []) classes) as [Hnd Hin].
  { split; simpl; [constructor|]. intros n Hn. by apply elem_of_nil in Hn. }
  split; [|split].
  - intros n Hn. rewrite sorted_elem_of in Hn.
    destruct (Hin n Hn) as (_ & Hnat & Hinl).
    split; [done|]. intros k Hk <-. apply Hinl.
    apply elem_of_list_to_set, list_elem_of_fmap. eauto.
  - by apply sorted_NoDup.
  - apply sorted_ascending.
Qed.

End Imports.

(** ** The class registry *)

Lemma first_named_app cn l1 l2 :
  first_named cn (l1 ++ l2) =
  match first_named cn l1 with Some k => Some k | None => first_named cn l2 end.
Proof.
  unfold first_named. rewrite filter_app.
  by destruct (filter _ l1).
Qed.

Lemma register_class_lookup (l : list ClassModel) m o cn :
  (foldl register_class (m, o) l).1 !! cn =
  match m !! cn with Some k => Some k | None => first_named cn l end.
Proof.
  revert m o. induction l as [|k l IH]; intros m o; simpl.
  - by destruct (m !! cn).
  - unfold register_class at 2; simpl.
    destruct (m !! cls_className k) as [k0|] eqn:Hk.
    + rewrite IH. destruct (m !! cn) as [k1|] eqn:Hcn; [done|].
      unfold first_named. rewrite filter_cons.
      destruct (decide (cls_className k = cn)) as [Heq|]; [|done].
      congruence.
    + rewrite IH. unfold first_named. rewrite filter_cons.
      destruct (decide (cls_className k = cn)) as [Heq|Hne].
      * subst cn. rewrite lookup_insert_eq. by rewrite Hk.
      * by rewrite lookup_insert_ne.
Qed.

Lemma parse_step_lookup reg res cn :
  all_classes (parse_step reg res) !! cn =
  match all_classes reg !! cn with
  | Some k => Some k
  | None => first_named cn (match res.1 with Some c => c_classes c | None => [] end)
  end.
Proof.
  unfold parse_step. destruct res.1 as [c|]; simpl.
  - apply register_class_lookup.
  - by destruct (all_classes reg !! cn).
Qed.

(** [parse_profiles] is the fold of [parse_step] over what [process_profile]
    returns for each file. *)
Lemma parse_profiles_fold `{cfg : Settings} fuel profiles reg reg' :
  parse_profiles fuel profiles reg = Ok reg' →
  ∃ results,
    Forall2 (fun p res => process_profile fuel p.1 p.2 = Ok res) profiles results ∧
    reg' = foldl parse_step reg results.
Proof.
  revert reg. induction profiles as [|[path profile] rest IH]; intros reg; simpl.
  - intros [= <-]. exists []. split; [constructor|done].
  - destruct (process_profile fuel path profile) as [res|e] eqn:Hres; [|done].
    simpl. intros H. destruct (IH _ H) as (results & Hall & ->).
    exists (res :: results). split; [by constructor|done].
Qed.

(** C1. The registry keeps the first class registered under a name: after
    any run of profile compilations, the lookup of a name returns the class
    the registry already held for it, and otherwise the first compiled class
    of that name; no later class of the same name replaces it. *)
Theorem registry_first_wins
    (results : list (option Compiled * list string)) (reg : Registry)
    (cn : string) :
  all_classes (foldl parse_step reg results) !! cn =
  match all_classes reg !! cn with
  | Some k => Some k
  | None => first_named cn (compiled_classes results)
  end.
Proof.
  revert reg. induction results as [|res results IH]; intros reg; simpl.
  - by destruct (all_classes reg !! cn).
  - rewrite IH, parse_step_lookup. unfold compiled_classes.
    destruct (all_classes reg !! cn); [done|].
    simpl. by rewrite first_named_app.
Qed.

(** ** The import list of a profile *)

Lemma process_profile_imports `{cfg : Settings} fuel path profile c out :
  process_profile fuel path profile = Ok (Some c, out) →
  c_imports c = compute_imports (c_classes c).
Proof.
  unfold process_profile. destruct (decide _); [|done].
  destruct (structure profile) as [[|structure ?]|]; [done| |done].
  destruct (compile_elements _ _ _ _ _ _ _) as [st|]; [simpl|done].
  destruct (for_each _ _ _) as [[sp sup]|]; [simpl|done].
  by intros [= <- <-].
Qed.

(** C4. The import list of a compiled profile holds no native type name and
    no name of a class compiled within the profile, holds no name twice and
    is in ascending order. *)
Theorem imports_clean `{cfg : Settings} (fuel : nat) (path : string)
    (profile : Profile) (c : Compiled) (out : list string) :
  process_profile fuel path profile = Ok (Some c, out) →
  (∀ n, n ∈ c_imports c →
        (n ∉ natives) ∧ ∀ k, k ∈ c_classes c → cls_className k ≠ n) ∧
  NoDup (c_imports c) ∧
  ascending (c_imports c).
Proof.
  intros H. rewrite (process_profile_imports _ _ _ _ _ H).
  apply compute_imports_clean.
Qed.

Lemma imports_clean_witness :
  ∃ c out,
    process_profile (cfg := sample_settings) 2 "patient.profile.json"
      patient_profile = Ok (Some c, out) ∧
    c_imports c = ["FHIRElement"; "FHIRResource"; "HumanName"; "ResourceReference"] ∧
    (∀ n, n ∈ c_imports c →
          (n ∉ @natives sample_settings) ∧
          ∀ k, k ∈ c_classes c → cls_className k ≠ n) ∧
    NoDup (c_imports c) ∧
    ascending (c_imports c).
Proof.
  eexists _, _. split; [vm_compute; reflexivity|].
  split; [reflexivity|].
  eapply (imports_clean (cfg := sample_settings) 2 "patient.profile.json"
            patient_profile).
  vm_compute; reflexivity.
Defined.

(** ** The element compiler *)

Lemma for_each_cons {A B} (body : B → A → result B) x l acc :
  for_each body (x :: l) acc = body acc x ≫= for_each body l.
Proof. reflexivity. Qed.

Lemma result_bind_Ok {A B} (f : A → result B) (a : A) : Ok a ≫= f = f a.
Proof. reflexivity. Qed.


Section Elements.
Context `{cfg : Settings}.

Lemma process_elem_type_S fuel klass name tp ref short formal n_min n_max :
  process_elem_type (S fuel) klass name tp ref short formal n_min n_max =
  if decide (tp = "*") then
    for_each
      (fun k exp_type =>
         process_elem_type fuel k name exp_type ref short formal n_min n_max)
      starexpandtypes klass
  else Ok (append_property klass (describe_property name tp ref short n_min n_max)).
Proof. reflexivity. Qed.

Lemma append_property_properties klass p :
  cls_properties (append_property klass p) = cls_properties klass ++ [p].
Proof. unfold append_property. by destruct (prop_nonoptional p). Qed.


(** A type code other than the wildcard adds one property. *)
Lemma process_elem_type_plain fuel klass name tp ref short formal n_min n_max :
  tp ≠ "*" →
  process_elem_type (S fuel) klass name tp ref short formal n_min n_max =
  Ok (append_property klass (describe_property name tp ref short n_min n_max)).
Proof. intros H. rewrite process_elem_type_S. by destruct (decide (tp = "*")). Qed.



(** [process_elem_type] raises nothing but [RecursionError]. *)
Lemma process_elem_type_raises fuel klass name tp ref short formal n_min n_max e :
  process_elem_type fuel klass name tp ref short formal n_min n_max = Raise e →
  e = RecursionError.
Proof.
  revert klass tp. induction fuel as [|fuel IH]; intros klass tp; simpl.
  - by intros [= <-].
  - destruct (decide (tp = "*")); [|done].
    generalize starexpandtypes. intros tps. revert klass.
    induction tps as [|t tps IHtps]; intros klass; simpl; [done|].
    destruct (process_elem_type fuel klass name t ref short formal n_min n_max)
      as [k'|e'] eqn:Ht; simpl.
    + apply IHtps.
    + intros [= <-]. by apply IH in Ht.
Qed.

(** A wildcard list that names the wildcard makes the expansion call itself
    without end: whatever the recursion limit, the call raises. *)
Lemma process_elem_type_loops fuel klass name ref short formal n_min n_max :
  "*" ∈ starexpandtypes →
  process_elem_type fuel klass name "*" ref short formal n_min n_max =
  Raise RecursionError.
Proof.
  intros Hstar. revert klass. induction fuel as [|fuel IH]; intros klass; [done|].
  rewrite process_elem_type_S. destruct (decide _); [|done].
  revert klass. induction starexpandtypes as [|t tps IHtps]; intros klass.
  - by apply elem_of_nil in Hstar.
  - simpl.
    destruct (process_elem_type fuel klass name t ref short formal n_min n_max)
      as [k'|e'] eqn:Ht; simpl.
    + apply elem_of_cons in Hstar as [<-|Hstar].
      * by rewrite IH in Ht.
      * by apply IHtps.
    + f_equal. by apply process_elem_type_raises in Ht.
Qed.

End Elements.

(** The capital that [upper] gives is the one of the alphabet. *)
Lemma upper_capital c : Py.upper c = capital c.
Proof.
  destruct c as [b0 b1 b2 b3 b4 b5 b6 b7].
  by destruct b0, b1, b2, b3, b4, b5, b6, b7.
Qed.

Lemma capitalize_first_capital s : Py.capitalize s = first_capital s.
Proof. destruct s as [|c r]; [done|]. simpl. by rewrite upper_capital. Qed.

Section ElementClaims.
Context `{cfg : Settings}.


(** C6, as amended. For a type other than the wildcard, written in ASCII,
    and a base name that holds the placeholder, the original name of the
    property is the base name with the placeholder replaced by the type
    with its first letter capitalized, [Resource] standing in for
    [ResourceReference]; the name that the property is declared under is
    that name after the reserved words are mapped. *)
Theorem choice_property_name (fuel : nat) (klass : ClassModel)
    (name tp : string) (ref : option string) (short : string)
    (formal : option string) (n_min : Z) (n_max : string) :
  tp ≠ "*" →
  ascii_text tp →
  Py.contains "[x]" name = true →
  ∃ klass' p,
    process_elem_type (S fuel) klass name tp ref short formal n_min n_max
      = Ok klass' ∧
    cls_properties klass' = cls_properties klass ++ [p] ∧
    prop_orig_name p =
      Py.replace "[x]"
        (first_capital (if decide (tp = "ResourceReference") then "Resource" else tp))
        name ∧
    prop_name p = default (prop_orig_name p) (reservedmap !! prop_orig_name p).
Proof.
  intros Htp _ Hx. eexists _, _. split; [by apply process_elem_type_plain|].
  split; [apply append_property_properties|].
  simpl. unfold choice_name. by rewrite Hx, capitalize_first_capital.
Qed.





End ElementClaims.




(** C6 fails as worded: with a rename for [valueBoolean] in the table of
    reserved words, the choice element [value[x]] of type [boolean] is
    declared under the rename, not under [valueBoolean]. *)
Lemma choice_names_property_fails :
  ¬ choice_names_property (cfg := renaming_settings)
      1 sample_class "value[x]" "boolean" None "Value" None 0 "1".
Proof.
  intros (klass' & p & Hrun & Hprops & Hname).
  vm_compute in Hrun. injection Hrun as <-. simpl in Hprops.
  injection Hprops as <-. discriminate Hname.
Qed.

Lemma choice_property_name_witness :
  "boolean" ≠ "*" ∧ ascii_text "boolean" ∧
  Py.contains "[x]" "value[x]" = true ∧
  (∃ klass' p,
    process_elem_type (cfg := renaming_settings) 1 sample_class "value[x]"
      "boolean" None "Value" None 0 "1" = Ok klass' ∧
    cls_properties klass' = cls_properties sample_class ++ [p] ∧
    prop_orig_name p =
      Py.replace "[x]"
        (first_capital
           (if decide ("boolean" = "ResourceReference") then "Resource"
            else "boolean"))
        "value[x]" ∧
    prop_name p =
      default (prop_orig_name p)
        (@reservedmap renaming_settings !! prop_orig_name p)) ∧
  Py.replace "[x]" (first_capital "boolean") "value[x]" = "valueBoolean" ∧
  default "valueBoolean" (@reservedmap renaming_settings !! "valueBoolean")
    = "flag".
Proof.
  assert ("boolean" ≠ "*") as Hne by discriminate.
  split; [exact Hne|]. split; [reflexivity|]. split; [reflexivity|].
  split; [|split; reflexivity].
  exact (choice_property_name (cfg := renaming_settings) 0 sample_class
           "value[x]" "boolean" None "Value" None 0 "1" Hne eq_refl eq_refl).
Defined.

(** The choice rule at work on the two cases of the specification. *)
Example choice_name_quantity :
  choice_name "value[x]" "Quantity" = "valueQuantity".
Proof. reflexivity. Qed.

Example choice_name_reference :
  choice_name "reason[x]" "ResourceReference" = "reasonResource".
Proof. reflexivity. Qed.



(** ** The element loop of the profile compiler *)

Section ProfileClaims.
Context `{cfg : Settings}.

Lemma with_out_same (st : LoopState) : with_out st (out st) = st.
Proof. by destruct st. Qed.

Lemma compile_element_skip fuel profile main superclass is_subclass st e :
  name_of (e_path e) ∈ skip_properties →
  compile_element fuel profile main superclass is_subclass st e
    = Ok (st, Continue).
Proof.
  intros Hskip. unfold compile_element.
  rewrite bool_decide_eq_true_2 by done.
  unfold log1. simpl. by rewrite with_out_same.
Qed.

Lemma compile_element_no_definition fuel profile main superclass is_subclass st e :
  name_of (e_path e) ∉ skip_properties →
  e_definition e = None →
  compile_element fuel profile main superclass is_subclass st e
    = Ok (with_out st (out st ++ [no_definition_line e]), Continue).
Proof.
  intros Hskip Hdef. unfold compile_element.
  rewrite bool_decide_eq_false_2 by done. by rewrite Hdef.
Qed.

Lemma compile_elements_cons fuel profile main superclass is_subclass e rest st :
  compile_elements fuel profile main superclass is_subclass (e :: rest) st =
  compile_element fuel profile main superclass is_subclass st e ≫= fun r =>
    match r.2 with
    | Continue =>
        compile_elements fuel profile main superclass is_subclass rest r.1
    | Break => Ok r.1
    end.
Proof.
  simpl. destruct (compile_element _ _ _ _ _ _ _) as [[st' fl]|]; [|done].
  by destruct fl.
Qed.

(** C10. An element whose last path segment is one of the four names of
    [skip_properties] is passed over whatever it declares: its round of the
    loop leaves the mapping, the classes and their properties as they are,
    and the profile compiles as it does without the element. *)
Theorem skipped_element_ignored (fuel : nat) (profile : Profile)
    (main superclass : string) (is_subclass : bool) (e : Element) :
  name_of (e_path e) ∈ skip_properties →
  (∀ st, compile_element fuel profile main superclass is_subclass st e
           = Ok (st, Continue)) ∧
  ∀ before after st,
    compile_elements fuel profile main superclass is_subclass
      (before ++ e :: after) st =
    compile_elements fuel profile main superclass is_subclass
      (before ++ after) st.
Proof.
  intros Hskip. split; [intros st; by apply compile_element_skip|].
  induction before as [|x before IH]; intros after st.
  - simpl app. rewrite compile_elements_cons, compile_element_skip by done.
    done.
  - rewrite <- !app_comm_cons, !compile_elements_cons.
    destruct (compile_element _ _ _ _ _ st x) as [[st' fl]|]; [|done].
    simpl. destruct fl; [apply IH|done].
Qed.


(** C3, as amended. An element without definition stops nothing but its own
    round of the loop: the round prints the diagnostic (unless the name of
    the element is one of [skip_properties], which are passed over silently),
    adds no class and no property, and the loop goes on with the elements
    that follow. *)
Theorem missing_definition_skips_element (fuel : nat) (profile : Profile)
    (main superclass : string) (is_subclass : bool) (e : Element)
    (st : LoopState) :
  e_definition e = None →
  ∃ printed,
    compile_element fuel profile main superclass is_subclass st e
      = Ok (with_out st printed, Continue) ∧
    (name_of (e_path e) ∉ skip_properties →
     printed = out st ++ [no_definition_line e]) ∧
    ∀ rest,
      compile_elements fuel profile main superclass is_subclass (e :: rest) st =
      compile_elements fuel profile main superclass is_subclass rest
        (with_out st printed).
Proof.
  intros Hdef.
  destruct (decide (name_of (e_path e) ∈ skip_properties)) as [Hskip|Hskip].
  - exists (out st). rewrite with_out_same.
    split; [by apply compile_element_skip|]. split; [done|].
    intros rest. by rewrite compile_elements_cons, compile_element_skip.
  - exists (out st ++ [no_definition_line e]).
    split; [by apply compile_element_no_definition|]. split; [done|].
    intros rest.
    by rewrite compile_elements_cons, compile_element_no_definition.
Qed.


End ProfileClaims.

(** ** Named subclasses *)

Section NamedSubclass.
Context `{cfg : Settings}.


End NamedSubclass.

(** ** The profile claims on sample profiles *)

Lemma skipped_element_ignored_witness :
  name_of (e_path extension_element) ∈ skip_properties ∧
  (∀ st, compile_element (cfg := sample_settings) 2 patient_profile "Patient"
           "Patient" false st extension_element = Ok (st, Continue)) ∧
  ∀ before after st,
    compile_elements (cfg := sample_settings) 2 patient_profile "Patient"
      "Patient" false (before ++ extension_element :: after) st =
    compile_elements (cfg := sample_settings) 2 patient_profile "Patient"
      "Patient" false (before ++ after) st.
Proof.
  assert (name_of (e_path extension_element) ∈ skip_properties) as Hskip.
  { apply (bool_decide_unpack _). vm_compute. exact I. }
  split; [exact Hskip|].
  exact (skipped_element_ignored (cfg := sample_settings) 2 patient_profile
           "Patient" "Patient" false extension_element Hskip).
Defined.

(** C3 fails as worded: [gap_profile] has an element without definition and
    still compiles to the class [Patient] with the property of the element
    that follows. *)
Lemma missing_definition_aborts_fails :
  ¬ missing_definition_aborts (cfg := sample_settings) 2 "gap.profile.json"
      gap_profile.
Proof.
  intros Hclaim.
  destruct (Hclaim _ _ undefined_element eq_refl) as (res & Hrun & Hnone).
  - simpl. apply list_elem_of_further, list_elem_of_here.
  - reflexivity.
  - vm_compute in Hrun. injection Hrun as <-. discriminate Hnone.
Qed.

Lemma missing_definition_skips_element_witness :
  e_definition undefined_element = None ∧
  ∃ printed,
    compile_element (cfg := sample_settings) 2 gap_profile "Patient" "Patient"
      false initial_state undefined_element
      = Ok (with_out initial_state printed, Continue) ∧
    (name_of (e_path undefined_element) ∉ skip_properties →
     printed = out initial_state ++ [no_definition_line undefined_element]) ∧
    ∀ rest,
      compile_elements (cfg := sample_settings) 2 gap_profile "Patient"
        "Patient" false (undefined_element :: rest) initial_state =
      compile_elements (cfg := sample_settings) 2 gap_profile "Patient"
        "Patient" false rest (with_out initial_state printed).
Proof.
  split; [reflexivity|].
  exact (missing_definition_skips_element (cfg := sample_settings) 2 gap_profile
           "Patient" "Patient" false undefined_element initial_state eq_refl).
Defined.



(** ** The search parameters *)

(** *** [split] on the keys of the parameter set *)

Lemma split_not_nil sep s : Py.split sep s ≠ [].
Proof.
  destruct s as [|c r]; simpl; [done|].
  destruct (decide (c = sep)); [done|]. by destruct (Py.split sep r).
Qed.

Lemma split_length_pos sep s : 1 ≤ length (Py.split sep s).
Proof.
  pose proof (split_not_nil sep s). destruct (Py.split sep s); simpl; [done|lia].
Qed.

(** Two texts joined by the separator split into the parts of both. *)
Lemma split_joined sep a b :
  Py.split sep (a +:+ String sep b) = Py.split sep a ++ Py.split sep b.
Proof.
  induction a as [|c r IH]; simpl.
  - by rewrite decide_True.
  - destruct (decide (c = sep)); [by rewrite IH|].
    rewrite IH. pose proof (split_not_nil sep r).
    by destruct (Py.split sep r).
Qed.

(** A text without the separator is its own single part. *)
Lemma split_single sep s : length (Py.split sep s) = 1 → Py.split sep s = [s].
Proof.
  induction s as [|c r IH]; simpl; [done|].
  destruct (decide (c = sep)).
  - pose proof (split_length_pos sep r). simpl. lia.
  - pose proof (split_not_nil sep r) as Hnn.
    destruct (Py.split sep r) as [|h [|h' t]]; simpl; [by destruct Hnn| |lia].
    intros _. specialize (IH eq_refl). by injection IH as ->.
Qed.

Lemma search_key_joined n o t :
  search_key n o t = n +:+ String "|" (o +:+ String "|" t).
Proof. reflexivity. Qed.

(** A key with two separators splits back into its three fields. *)
Lemma split_search_key n o t :
  length (Py.split "|" (search_key n o t)) = 3 →
  Py.split "|" (search_key n o t) = [n; o; t].
Proof.
  rewrite search_key_joined, !split_joined, !length_app.
  pose proof (split_length_pos "|" n). pose proof (split_length_pos "|" o).
  pose proof (split_length_pos "|" t). intros Hlen.
  rewrite (split_single "|" n), (split_single "|" o), (split_single "|" t) by lia.
  done.
Qed.

Section SearchClaims.
Context `{cfg : Settings}.

(** A declaration with a name and a type enters the profile's set under the
    key of its normalized name. *)
Lemma collect_search_param_key acc param n :
  sp_name param ≠ "" → sp_type param ≠ "" →
  normalize_name (sp_name param) = Ok n →
  collect_search_param acc param =
  Ok ({[search_key n (sp_name param) (sp_type param)]} ∪ acc.1, {[n]} ∪ acc.2).
Proof.
  intros Hname Htype Hn. destruct acc as [sps sup]. unfold collect_search_param.
  rewrite !bool_decide_eq_true_2 by done. simpl. by rewrite Hn.
Qed.

(** The inner loop over [extensions] only adds to [dupes], and adds the name
    when an entry carries it. *)
Lemma collide_fold finalname (exts : list Extension) (dupes : gset string) :
  let dupes' :=
    foldl (fun dupes d =>
             if decide (finalname = ext_name d) then {[finalname]} ∪ dupes
             else dupes) dupes exts in
  dupes ⊆ dupes' ∧ (finalname ∈ map ext_name exts → finalname ∈ dupes').
Proof.
  revert dupes. induction exts as [|d exts IH]; intros dupes; simpl.
  - split; [done|]. intros H. by apply elem_of_nil in H.
  - destruct (decide (finalname = ext_name d)) as [Heq|Hne].
    + destruct (IH ({[finalname]} ∪ dupes)) as [Hsub _]. split.
      * etrans; [|exact Hsub]. apply union_subseteq_r.
      * intros _. apply Hsub, elem_of_union. left. by apply elem_of_singleton.
    + destruct (IH dupes) as [Hsub Hin].
      split; [done|]. intros H. apply elem_of_cons in H as [H|H]; [done|auto].
Qed.

Lemma merge_param_step exts dupes param n o t :
  Py.split "|" param = [n; o; t] →
  ∃ dupes',
    merge_param (exts, dupes) param =
      Ok (exts ++ [{| ext_name := final_name n; ext_original := o;
                      ext_type := t |}], dupes') ∧
    dupes ⊆ dupes' ∧
    (final_name n ∈ map ext_name exts → final_name n ∈ dupes').
Proof.
  intros Hsplit. unfold merge_param. rewrite Hsplit.
  eexists. split; [reflexivity|]. apply collide_fold.
Qed.

Lemma three_fields_split param :
  three_fields param → ∃ n o t, Py.split "|" param = [n; o; t].
Proof.
  unfold three_fields. destruct (Py.split "|" param) as [|n [|o [|t [|x l]]]];
    simpl; try done. eauto.
Qed.

(** The loop of [process_search] over well-formed keys: it raises nothing,
    keeps the entries and the flags it has, adds an entry for every key, and
    flags the name of a key when an entry carries it already. *)
Lemma merge_loop (params : list string) exts dupes :
  Forall three_fields params →
  ∃ exts' dupes',
    for_each merge_param params (exts, dupes) = Ok (exts', dupes') ∧
    dupes ⊆ dupes' ∧
    (∀ e, e ∈ exts → e ∈ exts') ∧
    (∀ p n o t, p ∈ params → Py.split "|" p = [n; o; t] →
       {| ext_name := final_name n; ext_original := o; ext_type := t |} ∈ exts' ∧
       (final_name n ∈ map ext_name exts → final_name n ∈ dupes')).
Proof.
  intros Hall. revert exts dupes.
  induction Hall as [|p params Hp _ IH]; intros exts dupes.
  - exists exts, dupes. split; [done|]. split; [done|]. split; [done|].
    intros p n o t Hin. by apply elem_of_nil in Hin.
  - destruct (three_fields_split p Hp) as (n & o & t & Hsplit).
    destruct (merge_param_step exts dupes p n o t Hsplit)
      as (dupes1 & Hstep & Hsub1 & Hflag1).
    destruct (IH (exts ++ [{| ext_name := final_name n; ext_original := o;
                              ext_type := t |}]) dupes1)
      as (exts' & dupes' & Hrun & Hsub & Hkeep & Hkeys).
    exists exts', dupes'. rewrite for_each_cons, Hstep, result_bind_Ok.
    split; [done|]. split; [by etrans|].
    split; [intros e He; apply Hkeep, elem_of_app; by left|].
    intros q n' o' t' Hq Hq'. apply elem_of_cons in Hq as [->|Hq].
    + rewrite Hsplit in Hq'. injection Hq' as <- <- <-. split.
      * apply Hkeep, elem_of_app. right. apply list_elem_of_here.
      * intros Hin. apply Hsub. auto.
    + destruct (Hkeys q n' o' t' Hq Hq') as [Hentry Hflag]. split; [done|].
      intros Hin. apply Hflag. rewrite map_app. apply elem_of_app. by left.
Qed.

(** Two different keys of one name: the later one finds the entry of the
    earlier one, and the name is flagged. *)
Lemma merge_loop_pair (params : list string) exts dupes p1 p2 n o1 t1 o2 t2 :
  Forall three_fields params →
  p1 ∈ params → p2 ∈ params → p1 ≠ p2 →
  Py.split "|" p1 = [n; o1; t1] → Py.split "|" p2 = [n; o2; t2] →
  ∀ exts' dupes',
    for_each merge_param params (exts, dupes) = Ok (exts', dupes') →
    final_name n ∈ dupes'.
Proof.
  intros Hall. revert exts dupes.
  induction Hall as [|p params Hp Hall IH];
    intros exts dupes H1 H2 Hne Hs1 Hs2 exts' dupes' Hrun.
  - by apply elem_of_nil in H1.
  - destruct (three_fields_split p Hp) as (n' & o' & t' & Hsplit).
    destruct (merge_param_step exts dupes p n' o' t' Hsplit)
      as (dupes1 & Hstep & _ & _).
    rewrite for_each_cons, Hstep, result_bind_Ok in Hrun.
    destruct (merge_loop params
                (exts ++ [{| ext_name := final_name n'; ext_original := o';
                             ext_type := t' |}]) dupes1 Hall)
      as (exts2 & dupes2 & Hrun2 & _ & _ & Hkeys).
    rewrite Hrun2 in Hrun. injection Hrun as <- <-.
    assert (∀ q oq tq, q ∈ params → Py.split "|" q = [n; oq; tq] →
                       n' = n → final_name n ∈ dupes2) as Hlater.
    { intros q oq tq Hq Hsq ->. apply (Hkeys q n oq tq Hq Hsq).
      rewrite map_app. apply elem_of_app. right. apply list_elem_of_here. }
    apply elem_of_cons in H1 as [->|H1]; apply elem_of_cons in H2 as [->|H2].
    + done.
    + rewrite Hsplit in Hs1. injection Hs1 as -> _ _. by eapply Hlater.
    + rewrite Hsplit in Hs2. injection Hs2 as -> _ _. by eapply Hlater.
    + by eapply (IH _ _ H1 H2 Hne Hs1 Hs2).
Qed.

End SearchClaims.

Section SearchMerge.
Context `{cfg : Settings}.

(** C9, as amended. Two declarations with different original names and one
    normalized name, in a parameter set whose keys have their three fields
    (no name or type holds the separator of the key), are merged without an
    error when the search parameters are switched on: the table keeps an
    entry for each original name, and [dupes] holds the name under which the
    two collide, the normalized name after the reserved words are mapped. *)
Theorem colliding_search_params (params : gset string)
    (in_profiles : gmap string (gset string)) (o1 o2 t1 t2 n : string) :
  write_searchparams = true →
  o1 ≠ o2 →
  normalize_name o1 = Ok n →
  normalize_name o2 = Ok n →
  search_key n o1 t1 ∈ params →
  search_key n o2 t2 ∈ params →
  (∀ p, p ∈ params → three_fields p) →
  ∃ data,
    process_search params in_profiles = Ok (Some data) ∧
    final_name n ∈ dupes data ∧
    {| ext_name := final_name n; ext_original := o1; ext_type := t1 |}
      ∈ extensions data ∧
    {| ext_name := final_name n; ext_original := o2; ext_type := t2 |}
      ∈ extensions data.
Proof.
  intros Hon Hne _ _ H1 H2 Hwf. unfold process_search. rewrite Hon.
  set (keys := Py.sorted (elements params)).
  assert (∀ p, p ∈ keys ↔ p ∈ params) as Hkeys.
  { intros p. unfold keys. by rewrite sorted_elem_of, elem_of_elements. }
  assert (Forall three_fields keys) as Hall.
  { apply Forall_forall. intros p Hp. by apply Hwf, Hkeys. }
  pose proof (split_search_key n o1 t1 (Hwf _ H1)) as Hs1.
  pose proof (split_search_key n o2 t2 (Hwf _ H2)) as Hs2.
  destruct (merge_loop keys [] ∅ Hall) as (exts & flags & Hrun & _ & _ & Hin).
  assert (search_key n o1 t1 ≠ search_key n o2 t2) as Hdiff.
  { intros Heq. rewrite Heq, Hs2 in Hs1. by injection Hs1. }
  pose proof (merge_loop_pair keys [] ∅ _ _ n o1 t1 o2 t2 Hall
                (proj2 (Hkeys _) H1) (proj2 (Hkeys _) H2) Hdiff Hs1 Hs2
                exts flags Hrun) as Hflag.
  rewrite Hrun, result_bind_Ok. eexists. split; [reflexivity|]. simpl.
  split; [done|]. split.
  - apply (Hin _ n o1 t1 (proj2 (Hkeys _) H1) Hs1).
  - apply (Hin _ n o2 t2 (proj2 (Hkeys _) H2) Hs2).
Qed.

End SearchMerge.

(** C9 fails as worded: [class] and [cl.ass] collide under the normalized
    name [class], and the flag that [dupes] holds is [klass]. *)
Lemma collision_flags_normalized_name_fails :
  normalize_name (cfg := sample_settings) "class" = Ok "class" ∧
  normalize_name (cfg := sample_settings) "cl.ass" = Ok "class" ∧
  ¬ collision_flags_normalized_name (cfg := sample_settings)
      class_params ∅ "class" "cl.ass" "class".
Proof.
  split; [reflexivity|]. split; [reflexivity|].
  intros (data & Hrun & Hflag & _).
  assert (process_search (cfg := sample_settings) class_params ∅ =
          Ok (Some {| extensions :=
                        [ {| ext_name := "klass"; ext_original := "cl.ass";
                             ext_type := "token" |};
                          {| ext_name := "klass"; ext_original := "class";
                             ext_type := "token" |} ];
                      sd_in_profiles := ∅;
                      dupes := {[ "klass" ]} |})) as Hval.
  { vm_compute. reflexivity. }
  rewrite Hval in Hrun. injection Hrun as <-. simpl in Hflag.
  apply elem_of_singleton in Hflag. discriminate Hflag.
Qed.

Lemma sample_class_params_fields : ∀ p, p ∈ class_params → three_fields p.
Proof.
  intros p Hp. unfold class_params in Hp.
  apply elem_of_union in Hp as [Hp|Hp]; apply elem_of_singleton in Hp;
    subst p; reflexivity.
Qed.

Lemma colliding_search_params_witness :
  @write_searchparams sample_settings = true ∧
  "class" ≠ "cl.ass" ∧
  normalize_name (cfg := sample_settings) "class" = Ok "class" ∧
  normalize_name (cfg := sample_settings) "cl.ass" = Ok "class" ∧
  search_key "class" "class" "token" ∈ class_params ∧
  search_key "class" "cl.ass" "token" ∈ class_params ∧
  (∀ p, p ∈ class_params → three_fields p) ∧
  ∃ data,
    process_search (cfg := sample_settings) class_params ∅ = Ok (Some data) ∧
    final_name (cfg := sample_settings) "class" ∈ dupes data ∧
    {| ext_name := final_name (cfg := sample_settings) "class";
       ext_original := "class"; ext_type := "token" |} ∈ extensions data ∧
    {| ext_name := final_name (cfg := sample_settings) "class";
       ext_original := "cl.ass"; ext_type := "token" |} ∈ extensions data.
Proof.
  assert ("class" ≠ "cl.ass") as Hne by discriminate.
  assert (search_key "class" "class" "token" ∈ class_params) as H1.
  { apply (bool_decide_unpack _). vm_compute. exact I. }
  assert (search_key "class" "cl.ass" "token" ∈ class_params) as H2.
  { apply (bool_decide_unpack _). vm_compute. exact I. }
  split; [reflexivity|]. split; [exact Hne|].
  split; [reflexivity|]. split; [reflexivity|].
  split; [exact H1|]. split; [exact H2|].
  split; [exact sample_class_params_fields|].
  exact (colliding_search_params (cfg := sample_settings) class_params ∅
           "class" "cl.ass" "token" "token" "class" eq_refl Hne eq_refl eq_refl
           H1 H2 sample_class_params_fields).
Defined.

(** ** The example matcher *)

(** Induction on documents, through their arrays and objects. *)
Lemma json_ind (P : json → Prop) :
  P JNull →
  (∀ b, P (JBool b)) →
  (∀ n, P (JInt n)) →
  (∀ lexeme, P (JFloat lexeme)) →
  (∀ s, P (JStr s)) →
  (∀ vs, Forall P vs → P (JArr vs)) →
  (∀ items, Forall (fun kv => P kv.2) items → P (JObj items)) →
  ∀ value, P value.
Proof.
  intros Hnull Hbool Hint Hfloat Hstr Harr Hobj.
  fix IH 1.
  intros [|b|n|lexeme|s|vs|items];
    [exact Hnull|apply Hbool|apply Hint|apply Hfloat|apply Hstr| |].
  - apply Harr. induction vs as [|v vs IHvs]; constructor; [apply IH|exact IHvs].
  - apply Hobj.
    induction items as [|[key v] items IHitems]; constructor;
      [apply IH|exact IHitems].
Qed.

Section MatcherClaims.
Context `{cfg : Settings}.

Lemma handle_items_ok handle path propClass vs i :
  (∀ v p, v ∈ vs → is_Ok (handle p v propClass)) →
  is_Ok (handle_items handle path propClass vs i).
Proof.
  revert i. induction vs as [|v vs IH]; intros i Hok; simpl.
  - by eexists.
  - destruct (Hok v (unittest_format_path_index path i)) as [tests ->];
      [apply list_elem_of_here|].
    destruct (IH (S i)) as [more ->].
    { intros v' p Hv'. apply Hok. by apply list_elem_of_further. }
    by eexists.
Qed.

Lemma handle_value_ok handle path prop val :
  (∀ v p, v ∈ handled_values val → is_Ok (handle p v (prop_className prop))) →
  is_Ok (match val with
         | JArr vs => handle_items handle path (prop_className prop) vs 0
         | _ => handle (unittest_format_path_prepare path) val (prop_className prop)
         end).
Proof.
  intros Hok.
  destruct val; try (apply Hok; apply list_elem_of_here).
  by apply handle_items_ok.
Qed.

Lemma handle_properties_ok handle props prefix items :
  (∀ key val prop v p,
     (key, val) ∈ items → props !! key = Some prop → v ∈ handled_values val →
     is_Ok (handle p v (prop_className prop))) →
  is_Ok (handle_properties handle props prefix items).
Proof.
  induction items as [|[key val] items IH]; intros Hok; simpl.
  - by eexists.
  - destruct IH as [more Hmore].
    { intros k v' prop v p Hin. apply Hok. by apply list_elem_of_further. }
    destruct (props !! key) as [prop|] eqn:Hprop.
    + edestruct (handle_value_ok handle) as [tests ->].
      { intros v p Hv. eapply Hok; [apply list_elem_of_here|exact Hprop|exact Hv]. }
      rewrite Hmore. by eexists.
    + rewrite Hmore. by eexists.
Qed.

Lemma handle_unittest_property_ok_values classes value :
  returns_unless_null classes value ∧
  Forall (returns_unless_null classes) (handled_values value).
Proof.
  assert (∀ v, handled_values v = [v] → returns_unless_null classes v →
               returns_unless_null classes v ∧
               Forall (returns_unless_null classes) (handled_values v)) as Hone.
  { intros v -> Hv. split; [done|]. by constructor. }
  induction value as [|b|n|lexeme|s|vs IH|items IH] using json_ind.
  - apply Hone; [done|]. intros klass path Hnull. destruct Hnull. constructor.
  - apply Hone; [done|]. intros klass path _. simpl. by eexists.
  - apply Hone; [done|]. intros klass path _. simpl. by eexists.
  - apply Hone; [done|]. intros klass path _. simpl. by eexists.
  - apply Hone; [done|]. intros klass path _. simpl. by eexists.
  - split.
    + intros klass path _. simpl. by eexists.
    + simpl. eapply Forall_impl; [exact IH|]. by intros v [Hv _].
  - apply Hone; [done|]. intros klass path Hnull. simpl.
    destruct (classes !! default klass (subclassmap !! klass))
      as [subklass|] eqn:Hsub; [|by eexists].
    apply handle_properties_ok. intros key val prop v p Hin Hprop Hval.
    pose proof (proj1 (Forall_forall _ _) IH (key, val) Hin) as [_ Hvals].
    pose proof (proj1 (Forall_forall _ _) Hvals v Hval) as Hv.
    apply Hv. intros Hreach. apply Hnull. by eapply null_inside.
Qed.

Lemma handle_unittest_property_ok classes value klass path :
  ¬ null_reached classes value klass →
  is_Ok (handle_unittest_property classes path value klass).
Proof. apply handle_unittest_property_ok_values. Qed.

Lemma process_unittest_properties_ok utest klass classes prefix :
  ¬ null_in_properties classes klass utest →
  is_Ok (process_unittest_properties utest klass classes prefix).
Proof.
  intros Hnull. unfold process_unittest_properties.
  apply handle_properties_ok. intros key val prop v p Hin Hprop Hval.
  apply handle_unittest_property_ok.
  intros Hreach. apply Hnull. by exists key, val, prop, v.
Qed.

End MatcherClaims.

Section MatcherConverse.
Context `{cfg : Settings}.

Lemma handle_items_ok_inv handle path propClass vs i v :
  is_Ok (handle_items handle path propClass vs i) →
  v ∈ vs → ∃ p, is_Ok (handle p v propClass).
Proof.
  revert i. induction vs as [|v' vs IH]; intros i Hok Hv.
  - by apply elem_of_nil in Hv.
  - simpl in Hok.
    destruct (handle (unittest_format_path_index path i) v' propClass)
      as [tests|] eqn:Hhere; [|by destruct Hok].
    apply elem_of_cons in Hv as [->|Hv].
    + do 2 eexists. exact Hhere.
    + apply (IH (S i)); [|done].
      simpl in Hok. destruct (handle_items _ _ _ _ _); [by eexists|by destruct Hok].
Qed.

Lemma handle_properties_ok_inv handle props prefix items key val prop v :
  is_Ok (handle_properties handle props prefix items) →
  (key, val) ∈ items → props !! key = Some prop → v ∈ handled_values val →
  ∃ p, is_Ok (handle p v (prop_className prop)).
Proof.
  induction items as [|[key' val'] items IH]; intros Hok Hin Hprop Hv.
  - by apply elem_of_nil in Hin.
  - simpl in Hok. apply elem_of_cons in Hin as [[= <- <-]|Hin].
    + rewrite Hprop in Hok.
      destruct val; simpl in Hv;
        try (apply list_elem_of_singleton in Hv as ->;
             match type of Hok with
             | is_Ok (?r ≫= _) =>
                 destruct r eqn:Hhere; [|by destruct Hok]
             end;
             do 2 eexists; exact Hhere).
      match type of Hok with
      | is_Ok (?r ≫= _) => destruct r eqn:Hitems; [|by destruct Hok]
      end.
      eapply handle_items_ok_inv; [|exact Hv]. rewrite Hitems. by eexists.
    + apply IH; try done.
      match type of Hok with
      | is_Ok (?r ≫= _) => destruct r; [|by destruct Hok]
      end.
      simpl in Hok. destruct (handle_properties _ _ _ _); [by eexists|by destruct Hok].
Qed.

(** A [null] in its way makes [handle_unittest_property] raise. *)
Lemma handle_unittest_property_raises classes value klass :
  null_reached classes value klass →
  ∀ path, ¬ is_Ok (handle_unittest_property classes path value klass).
Proof.
  induction 1 as [klass|items klass subklass key val prop v Hsub Hin Hprop Hv _ IH];
    intros path Hok.
  - by destruct Hok.
  - simpl in Hok. rewrite Hsub in Hok.
    destruct (handle_properties_ok_inv _ _ _ _ _ _ _ _ Hok Hin Hprop Hv)
      as [p Hp].
    by apply (IH p).
Qed.

Lemma process_unittest_properties_raises utest klass classes prefix :
  null_in_properties classes klass utest →
  ¬ is_Ok (process_unittest_properties utest klass classes prefix).
Proof.
  intros (key & val & prop & v & Hin & Hprop & Hv & Hnull) Hok.
  destruct (handle_properties_ok_inv _ _ _ _ _ _ _ _ Hok Hin Hprop Hv)
    as [p Hp].
  by apply (handle_unittest_property_raises _ _ _ Hnull p).
Qed.

(** C2, as amended. An example document that is an object with a text as
    its resource type is matched to the end, and a test list or the mark of
    a missing class is returned, when no [null] is the value, or an element
    of the array value, of a key matched against a property of the class
    model. *)
Theorem matcher_completes_unless_null (classes : gmap string ClassModel)
    (items : list (string * json)) (className : string) :
  dict_get "resourceType" items = Some (JStr className) →
  (∀ klass, classes !! className = Some klass →
            ¬ null_in_properties classes klass (dict_del "resourceType" items)) →
  ∃ returned,
    process_unittest (JObj items) classes = Ok returned ∧
    (returned = None ↔ classes !! className = None) ∧
    ∀ name tests, returned = Some (name, tests) →
      name = className ∧ Sorted (key_le ta_path) tests.
Proof.
  intros Htype Hnull. unfold process_unittest. rewrite Htype.
  destruct (classes !! className) as [klass|] eqn:Hklass.
  - destruct (process_unittest_properties_ok
                (dict_del "resourceType" items) klass classes None
                (Hnull klass eq_refl)) as [tests ->].
    rewrite result_bind_Ok. eexists. split; [reflexivity|]. split; [done|].
    intros name tests' [= <- <-]. split; [done|]. apply sorted_by_sorted.
  - eexists. split; [reflexivity|]. split; [done|]. intros name tests [=].
Qed.

(** The condition of the theorem is the one that matters: with a [null]
    under a matched key the document is not matched to the end. *)
Lemma matcher_raises_on_null (classes : gmap string ClassModel)
    (items : list (string * json)) (className : string) (klass : ClassModel) :
  dict_get "resourceType" items = Some (JStr className) →
  classes !! className = Some klass →
  null_in_properties classes klass (dict_del "resourceType" items) →
  ¬ is_Ok (process_unittest (JObj items) classes).
Proof.
  intros Htype Hklass Hnull. unfold process_unittest. rewrite Htype, Hklass.
  intros Hok.
  apply (process_unittest_properties_raises _ _ _ None Hnull).
  destruct (process_unittest_properties _ _ _ _); [by eexists|by destruct Hok].
Qed.

End MatcherConverse.

(** ** The matcher on sample documents *)

(** C2 fails as worded: on [null_document] the matcher stops at the [assert]
    on the value. *)
Lemma matcher_aborts_on_null :
  process_unittest (cfg := sample_settings) (JObj null_document) patient_classes
    = Raise AssertionError.
Proof. vm_compute. reflexivity. Qed.

Example doe_document_tests :
  process_unittest (cfg := sample_settings) (JObj doe_document) patient_classes
    = Ok (Some ("Patient",
                [ {| ta_path := "contact[0].valueString"; ta_class := "String";
                     ta_value := JStr ("line1" +:+ escaped_newline +:+ "line2") |} ])).
Proof. vm_compute. reflexivity. Qed.

Lemma doe_document_null_free :
  ∀ klass, patient_classes !! "Patient" = Some klass →
    ¬ null_in_properties (cfg := sample_settings) patient_classes klass
        (dict_del "resourceType" doe_document).
Proof.
  intros klass Hklass Hnull.
  apply (process_unittest_properties_raises _ _ _ None) in Hnull.
  apply Hnull. vm_compute in Hklass. injection Hklass as <-.
  eexists. vm_compute. reflexivity.
Qed.

Lemma matcher_completes_unless_null_witness :
  dict_get "resourceType" doe_document = Some (JStr "Patient") ∧
  (∀ klass, patient_classes !! "Patient" = Some klass →
     ¬ null_in_properties (cfg := sample_settings) patient_classes klass
         (dict_del "resourceType" doe_document)) ∧
  ∃ returned,
    process_unittest (cfg := sample_settings) (JObj doe_document) patient_classes
      = Ok returned ∧
    (returned = None ↔ patient_classes !! "Patient" = None) ∧
    ∀ name tests, returned = Some (name, tests) →
      name = "Patient" ∧ Sorted (key_le ta_path) tests.
Proof.
  split; [reflexivity|]. split; [exact doe_document_null_free|].
  exact (matcher_completes_unless_null (cfg := sample_settings) patient_classes
           doe_document "Patient" eq_refl doe_document_null_free).
Defined.

(** * Further properties *)

(** ** What [parse_elem] does to the owning class and to the new one *)

Section ParseElemFacts.
Context `{cfg : Settings}.

Lemma process_elem_type_appends fuel klass name tp ref short formal n_min n_max klass' :
  process_elem_type fuel klass name tp ref short formal n_min n_max = Ok klass' →
  ∃ news, klass' = foldl append_property klass news.
Proof.
  revert klass tp klass'. induction fuel as [|fuel IH]; intros klass tp klass'.
  - done.
  - rewrite process_elem_type_S. destruct (decide (tp = "*")).
    + generalize starexpandtypes. intros tps. revert klass.
      induction tps as [|t tps IHtps]; intros klass.
      * intros [= <-]. by exists [].
      * rewrite for_each_cons.
        destruct (process_elem_type fuel klass name t ref short formal n_min n_max)
          as [k1|] eqn:Hk1; [|done].
        rewrite result_bind_Ok. intros Hrest.
        destruct (IH _ _ _ Hk1) as [news1 ->].
        destruct (IHtps _ Hrest) as [news2 ->].
        exists (news1 ++ news2). by rewrite foldl_app.
    + intros [= <-]. by exists [describe_property name tp ref short n_min n_max].
Qed.

Lemma for_each_types_appends fuel name short formal n_min n_max
    (types : list (string * option string)) klass klass' :
  for_each
    (fun k tr => process_elem_type fuel k name tr.1 tr.2 short formal n_min n_max)
    types klass = Ok klass' →
  ∃ news, klass' = foldl append_property klass news.
Proof.
  revert klass. induction types as [|tr types IH]; intros klass.
  - intros [= <-]. by exists [].
  - rewrite for_each_cons.
    destruct (process_elem_type fuel klass name tr.1 tr.2 short formal n_min n_max)
      as [k1|] eqn:Hk1; [|done].
    rewrite result_bind_Ok. intros Hrest.
    destruct (process_elem_type_appends _ _ _ _ _ _ _ _ _ _ Hk1) as [news1 ->].
    destruct (IH _ Hrest) as [news2 ->].
    exists (news1 ++ news2). by rewrite foldl_app.
Qed.

(** The owning class after [parse_elem]: properties were appended, and the
    list was sorted if it is not empty. *)
Lemma parse_elem_owner fuel path name definition klass returned newklass :
  parse_elem fuel path name definition (Some klass) = Ok (returned, newklass) →
  ∃ news,
    let k1 := foldl append_property klass news in
    returned =
      Some (if decide (0 < length (cls_properties k1))
            then set_properties k1 (Py.sorted_by prop_name (cls_properties k1))
            else k1).
Proof.
  unfold parse_elem.
  destruct (for_each _ _ klass) as [k1|] eqn:Hk1; [|done].
  rewrite result_bind_Ok. intros [= <- _].
  destruct (for_each_types_appends _ _ _ _ _ _ _ _ _ Hk1) as [news ->].
  by exists news.
Qed.

(** The new class of [parse_elem] is fresh. *)
Lemma parse_elem_new fuel path name definition klass returned newklass :
  parse_elem fuel path name definition klass = Ok (returned, Some newklass) →
  fresh_class path newklass.
Proof.
  unfold parse_elem.
  destruct (bool_decide (klass = None) || _); destruct klass as [k|].
  - destruct (for_each _ _ k); [|done]. rewrite result_bind_Ok.
    by intros [= _ <-].
  - by intros [= _ <-].
  - destruct (for_each _ _ k); [|done]. by rewrite result_bind_Ok.
  - done.
Qed.

Lemma append_property_same k p : same_class k (append_property k p).
Proof. unfold append_property. by destruct (prop_nonoptional p). Qed.

Lemma append_properties_same k ps : same_class k (foldl append_property k ps).
Proof.
  revert k. induction ps as [|p ps IH]; intros k; simpl; [done|].
  destruct (IH (append_property k p)) as (? & ? & ? & ? & ? & ? & ?).
  destruct (append_property_same k p) as (? & ? & ? & ? & ? & ? & ?).
  repeat split; congruence.
Qed.

Lemma parse_elem_owner_same fuel path name definition klass klass' newklass :
  parse_elem fuel path name definition (Some klass) = Ok (Some klass', newklass) →
  same_class klass klass'.
Proof.
  intros H. destruct (parse_elem_owner _ _ _ _ _ _ _ H) as [news Hk'].
  simpl in Hk'. injection Hk' as ->.
  pose proof (append_properties_same klass news) as Hsame.
  by destruct (decide _).
Qed.

Lemma key_le_trans {A} (key : A → string) : Transitive (key_le key).
Proof. intros x y z. apply string_leb_trans. Qed.

Lemma sorted_by_strongly {A} (key : A → string) (l : list A) :
  StronglySorted (key_le key) (Py.sorted_by key l).
Proof.
  apply Sorted_StronglySorted; [apply key_le_trans|apply sorted_by_sorted].
Qed.

Lemma parse_elem_owner_sorted fuel path name definition klass klass' newklass :
  parse_elem fuel path name definition (Some klass) = Ok (Some klass', newklass) →
  name_sorted (cls_properties klass').
Proof.
  intros H. destruct (parse_elem_owner _ _ _ _ _ _ _ H) as [news Hk'].
  simpl in Hk'. injection Hk' as ->. unfold name_sorted.
  destruct (decide _) as [|Hlen]; simpl.
  - apply sorted_by_strongly.
  - destruct (cls_properties _); [constructor|simpl in Hlen; lia].
Qed.

Lemma append_property_flag k p : flag_right k → flag_right (append_property k p).
Proof.
  unfold flag_right, append_property. intros Hk.
  destruct (prop_nonoptional p) eqn:Hp; simpl.
  - split; [|done]. intros _. exists p. split; [|done].
    apply elem_of_app. right. apply list_elem_of_here.
  - rewrite Hk. split.
    + intros (q & Hq & Hreq). exists q. split; [|done]. apply elem_of_app. by left.
    + intros (q & Hq & Hreq). apply elem_of_app in Hq as [Hq|Hq]; [by exists q|].
      apply list_elem_of_singleton in Hq. congruence.
Qed.

Lemma append_properties_flag k ps :
  flag_right k → flag_right (foldl append_property k ps).
Proof.
  revert k. induction ps as [|p ps IH]; intros k Hk; simpl; [done|].
  by apply IH, append_property_flag.
Qed.

Lemma parse_elem_owner_flag fuel path name definition klass klass' newklass :
  parse_elem fuel path name definition (Some klass) = Ok (Some klass', newklass) →
  flag_right klass → flag_right klass'.
Proof.
  intros H Hk. destruct (parse_elem_owner _ _ _ _ _ _ _ H) as [news Hk'].
  simpl in Hk'. injection Hk' as ->.
  pose proof (append_properties_flag klass news Hk) as Hflag.
  destruct (decide _); [|done].
  unfold flag_right in *. simpl. rewrite Hflag.
  by setoid_rewrite (sorted_by_perm prop_name _).
Qed.

End ParseElemFacts.

(** ** What one round of the element loop does *)

Section LoopFacts.
Context `{cfg : Settings}.

Lemma mapped_class_lookup st classpath i k :
  mapped_class st classpath = Some (i, k) →
  mapping st !! classpath = Some i ∧ classes st !! i = Some k.
Proof.
  unfold mapped_class. destruct (mapping st !! classpath) as [j|]; [simpl|done].
  destruct (classes st !! j) as [k'|] eqn:Hk; [simpl|done].
  by intros [= <- <-].
Qed.

(** The rounds of the loop, case by case: the element is passed over, or it
    is handed to [parse_elem], the owning class is written back, and a new
    class is appended as the resource, as the subclass or as it is. *)
Lemma compile_element_effect fuel profile main superclass is_subclass st e st' fl :
  compile_element fuel profile main superclass is_subclass st e = Ok (st', fl) →
  (mapping st' = mapping st ∧ classes st' = classes st ∧ fl = Continue) ∨
  ∃ d returned newklass,
    e_definition e = Some d ∧
    parse_elem fuel (e_path e) (name_of (e_path e)) d
      (snd <$> mapped_class st (classpath_of (e_path e)))
      = Ok (returned, newklass) ∧
    let classes1 :=
      match mapped_class st (classpath_of (e_path e)), returned with
      | Some (i, _), Some k' => <[i := k']> (classes st)
      | _, _ => classes st
      end in
    match newklass with
    | None => mapping st' = mapping st ∧ classes st' = classes1 ∧ fl = Continue
    | Some nk =>
        mapping st' = <[cls_path nk := length classes1]> (mapping st) ∧
        ((e_path e = main ∧ fl = Continue ∧
          classes st' = classes1 ++ [mark_resource nk main (requirements profile)]) ∨
         (e_path e ≠ main ∧ is_subclass = true ∧ fl = Break ∧
          classes st' = classes1 ++
            [mark_subclass nk main superclass (pr_name profile)
               (pr_description profile)]) ∨
         (e_path e ≠ main ∧ is_subclass = false ∧ fl = Continue ∧
          classes st' = classes1 ++ [nk]))
    end.
Proof.
  unfold compile_element.
  destruct (bool_decide (name_of (e_path e) ∈ skip_properties)).
  { intros [= <- <-]. by left. }
  destruct (e_definition e) as [d|]; [|intros [= <- <-]; by left].
  destruct (parse_elem _ _ _ _ _) as [[returned newklass]|] eqn:Hparse; [|done].
  rewrite result_bind_Ok. intros Hst. right.
  exists d, returned, newklass. split; [done|]. split; [done|].
  cbv zeta.
  destruct (mapped_class st (classpath_of (e_path e))) as [[i k]|];
    destruct returned as [k'|]; destruct newklass as [nk|];
    try (by injection Hst as <- <-);
    (destruct (decide (e_path e = main)) as [Heq|Hne];
     [|destruct is_subclass]); injection Hst as <- <-; simpl;
    (split; [done|]); auto 10.
Qed.

(** A property of classes that [parse_elem] keeps on the owning class and
    that holds of the new classes holds of all classes after the round. *)
Lemma compile_element_Forall (P : ClassModel → Prop)
    fuel profile main superclass is_subclass st e st' fl :
  (∀ path name d k k' nk,
     P k → parse_elem fuel path name d (Some k) = Ok (Some k', nk) → P k') →
  (∀ nk, fresh_class (e_path e) nk →
     (e_path e = main → P (mark_resource nk main (requirements profile))) ∧
     (e_path e ≠ main → is_subclass = true →
      P (mark_subclass nk main superclass (pr_name profile)
           (pr_description profile))) ∧
     (e_path e ≠ main → is_subclass = false → P nk)) →
  compile_element fuel profile main superclass is_subclass st e = Ok (st', fl) →
  Forall P (classes st) → Forall P (classes st').
Proof.
  intros Hown Hnew Hrun Hall.
  destruct (compile_element_effect _ _ _ _ _ _ _ _ _ Hrun)
    as [(_ & -> & _)|(d & returned & newklass & Hdef & Hparse & Heffect)];
    [done|].
  cbv zeta in Heffect.
  assert (Forall P
            (match mapped_class st (classpath_of (e_path e)), returned with
             | Some (i, _), Some k' => <[i := k']> (classes st)
             | _, _ => classes st
             end)) as Hall1.
  { destruct (mapped_class st (classpath_of (e_path e))) as [[i k]|] eqn:Hk;
      [|done].
    destruct returned as [k'|]; [|done].
    apply mapped_class_lookup in Hk as [_ Hk].
    apply Forall_insert; [done|]. simpl in Hparse.
    eapply Hown; [|exact Hparse].
    by eapply (proj1 (Forall_lookup _ _)). }
  destruct newklass as [nk|].
  - destruct (Hnew nk (parse_elem_new _ _ _ _ _ _ _ Hparse)) as (Hres & Hsub & Hplain).
    destruct Heffect as (_ & [(Heq & _ & ->)|[(Hne & Hs & _ & ->)|(Hne & Hs & _ & ->)]]);
      apply Forall_app; (split; [done|]); constructor; auto.
  - by destruct Heffect as (_ & -> & _).
Qed.

Lemma compile_elements_Forall (P : ClassModel → Prop)
    fuel profile main superclass is_subclass elements st st' :
  (∀ path name d k k' nk,
     P k → parse_elem fuel path name d (Some k) = Ok (Some k', nk) → P k') →
  (∀ path nk, fresh_class path nk →
     (path = main → P (mark_resource nk main (requirements profile))) ∧
     (path ≠ main → is_subclass = true →
      P (mark_subclass nk main superclass (pr_name profile)
           (pr_description profile))) ∧
     (path ≠ main → is_subclass = false → P nk)) →
  compile_elements fuel profile main superclass is_subclass elements st = Ok st' →
  Forall P (classes st) → Forall P (classes st').
Proof.
  intros Hown Hnew. revert st.
  induction elements as [|e elements IH]; intros st; simpl.
  - by intros [= <-].
  - destruct (compile_element _ _ _ _ _ st e) as [[st1 fl]|] eqn:Hstep; [|done].
    rewrite result_bind_Ok. intros Hrun Hall.
    pose proof (compile_element_Forall P _ _ _ _ _ _ _ _ _ Hown (Hnew (e_path e))
                  Hstep Hall) as Hall1.
    destruct fl; [by apply (IH st1)|]. by injection Hrun as <-.
Qed.

(** The classes of a compiled profile are those of the element loop. *)
Lemma process_profile_classes fuel path profile c printed :
  process_profile fuel path profile = Ok (Some c, printed) →
  ∃ (s : Structure) others st0 st,
    structure profile = Some (s :: others) ∧
    c_main c = main_of s ∧
    classes st0 = [] ∧ mapping st0 = ∅ ∧
    compile_elements fuel profile (main_of s) (s_type s) (is_subclass_of s)
      (structure_elements s) st0 = Ok st ∧
    c_classes c = classes st.
Proof.
  unfold process_profile. destruct (decide _); [|done].
  destruct (structure profile) as [[|s others]|]; [done| |done].
  destruct (compile_elements _ _ _ _ _ _ _) as [st|] eqn:Hloop; [|done].
  rewrite result_bind_Ok.
  destruct (for_each _ _ _) as [[sp sup]|]; [|done].
  rewrite result_bind_Ok. intros [= <- _].
  match type of Hloop with
  | compile_elements _ _ _ _ _ _ ?st0 = _ => exists s, others, st0, st
  end.
  by repeat split.
Qed.

End LoopFacts.

(** ** Invariants of the classes of a compiled profile *)

Section ClassInvariants.
Context `{cfg : Settings}.

(** X1. In every class of a compiled profile the properties are in the
    order of their names. *)
Theorem classes_name_sorted (fuel : nat) (path : string) (profile : Profile)
    (c : Compiled) (printed : list string) :
  process_profile fuel path profile = Ok (Some c, printed) →
  ∀ k, k ∈ c_classes c → name_sorted (cls_properties k).
Proof.
  intros Hrun.
  destruct (process_profile_classes _ _ _ _ _ Hrun)
    as (s & others & st0 & st & _ & _ & Hnil & _ & Hloop & ->).
  apply Forall_forall.
  eapply (compile_elements_Forall (fun k => name_sorted (cls_properties k)));
    [| |exact Hloop|rewrite Hnil; constructor].
  - intros p name d k k' nk _ Hparse. by eapply parse_elem_owner_sorted.
  - intros p nk (_ & _ & Hprops & _). unfold name_sorted. simpl.
    rewrite Hprops. repeat split; intros; constructor.
Qed.

(** X2. In every class of a compiled profile [hasNonoptional] is set exactly
    when one of its properties is required. *)
Theorem classes_flag_right (fuel : nat) (path : string) (profile : Profile)
    (c : Compiled) (printed : list string) :
  process_profile fuel path profile = Ok (Some c, printed) →
  ∀ k, k ∈ c_classes c → flag_right k.
Proof.
  intros Hrun.
  destruct (process_profile_classes _ _ _ _ _ Hrun)
    as (s & others & st0 & st & _ & _ & Hnil & _ & Hloop & ->).
  apply Forall_forall.
  eapply (compile_elements_Forall flag_right);
    [| |exact Hloop|rewrite Hnil; constructor].
  - intros p name d k k' nk Hk Hparse. by eapply parse_elem_owner_flag.
  - intros p nk (_ & _ & Hprops & Hflag & _). unfold flag_right. simpl.
    rewrite Hprops, Hflag.
    assert (false = true ↔ ∃ q : PropertyModel, q ∈ [] ∧ prop_nonoptional q = true)
      as Hempty.
    { split; [done|]. intros (q & Hq & _). by apply elem_of_nil in Hq. }
    split; [|split]; intros; exact Hempty.
Qed.

(** X3. In a compiled profile the classes made for the main path, and no
    others, carry the resource name, which is the main name. *)
Theorem classes_resource_marked (fuel : nat) (path : string) (profile : Profile)
    (c : Compiled) (printed : list string) :
  process_profile fuel path profile = Ok (Some c, printed) →
  ∀ k, k ∈ c_classes c → resource_marked (c_main c) k.
Proof.
  intros Hrun.
  destruct (process_profile_classes _ _ _ _ _ Hrun)
    as (s & others & st0 & st & _ & -> & Hnil & _ & Hloop & ->).
  apply Forall_forall.
  eapply (compile_elements_Forall (resource_marked (main_of s)));
    [| |exact Hloop|rewrite Hnil; constructor].
  - intros p name d k k' nk Hk Hparse.
    destruct (parse_elem_owner_same _ _ _ _ _ _ _ Hparse)
      as (Hp & _ & _ & _ & _ & Hr & _).
    unfold resource_marked in *. by rewrite Hp, Hr.
  - intros p nk (Hp & _ & _ & _ & Hr & _). unfold resource_marked. simpl.
    rewrite Hp, Hr. repeat split.
    + intros ->. by rewrite decide_True.
    + intros Hne _. by rewrite decide_False.
    + intros Hne _. by rewrite decide_False.
Qed.


End ClassInvariants.

Section MarkerAndMapping.
Context `{cfg : Settings}.

(** The classes after the owning class is written back. *)
Lemma written_back_Forall (P : ClassModel → Prop) fuel path name d st classpath
    returned newklass :
  (∀ k k', P k → same_class k k' → P k') →
  parse_elem fuel path name d (snd <$> mapped_class st classpath)
    = Ok (returned, newklass) →
  Forall P (classes st) →
  Forall P (match mapped_class st classpath, returned with
            | Some (i, _), Some k' => <[i := k']> (classes st)
            | _, _ => classes st
            end).
Proof.
  intros Hsame Hparse Hall.
  destruct (mapped_class st classpath) as [[i k]|] eqn:Hk; [|done].
  destruct returned as [k'|]; [|done].
  apply mapped_class_lookup in Hk as [_ Hk].
  apply Forall_insert; [done|]. simpl in Hparse.
  apply (Hsame k k'); [|exact (parse_elem_owner_same _ _ _ _ _ _ _ Hparse)].
  by eapply (proj1 (Forall_lookup _ _)).
Qed.

Lemma compile_element_unmarked fuel profile main superclass is_subclass st e st' fl :
  compile_element fuel profile main superclass is_subclass st e = Ok (st', fl) →
  Forall (fun k => cls_is_subclass k = false) (classes st) →
  match fl with
  | Continue => Forall (fun k => cls_is_subclass k = false) (classes st')
  | Break =>
      ∃ init k, classes st' = init ++ [k] ∧
                Forall (fun k => cls_is_subclass k = false) init
  end.
Proof.
  intros Hrun Hall.
  destruct (compile_element_effect _ _ _ _ _ _ _ _ _ Hrun)
    as [(_ & -> & ->)|(d & returned & newklass & Hdef & Hparse & Heffect)];
    [done|].
  cbv zeta in Heffect.
  pose proof (written_back_Forall (fun k => cls_is_subclass k = false)
                _ _ _ _ _ _ _ _
                (fun k k' Hk Hs => eq_trans (proj2 (proj2 (proj2 (proj2 (proj2
                   (proj2 Hs)))))) Hk) Hparse Hall) as Hall1.
  destruct newklass as [nk|].
  - destruct (parse_elem_new _ _ _ _ _ _ _ Hparse) as (_ & _ & _ & _ & _ & Hmark).
    destruct Heffect as (_ & [(_ & -> & ->)|[(_ & _ & -> & ->)|(_ & _ & -> & ->)]]).
    + apply Forall_app. split; [done|]. by constructor.
    + eexists _, _. by split.
    + apply Forall_app. split; [done|]. by constructor.
  - by destruct Heffect as (_ & -> & ->).
Qed.

Lemma compile_elements_unmarked fuel profile main superclass is_subclass
    elements st st' :
  compile_elements fuel profile main superclass is_subclass elements st = Ok st' →
  Forall (fun k => cls_is_subclass k = false) (classes st) →
  ∃ init tail, classes st' = init ++ tail ∧ length tail ≤ 1 ∧
               Forall (fun k => cls_is_subclass k = false) init.
Proof.
  revert st. induction elements as [|e elements IH]; intros st; simpl.
  - intros [= <-] Hall. exists (classes st), []. rewrite app_nil_r.
    split; [done|]. split; [simpl; lia|done].
  - destruct (compile_element _ _ _ _ _ st e) as [[st1 fl]|] eqn:Hstep; [|done].
    rewrite result_bind_Ok. intros Hrun Hall.
    pose proof (compile_element_unmarked _ _ _ _ _ _ _ _ _ Hstep Hall) as Hstep'.
    destruct fl.
    + by apply (IH st1).
    + injection Hrun as <-. destruct Hstep' as (init & k & -> & Hinit).
      exists init, [k]. split; [done|]. split; [simpl; lia|done].
Qed.

(** X5. Only the last class of a compiled profile can carry the subclass
    marker: the class that is renamed ends the compilation. *)
Theorem subclass_marker_last (fuel : nat) (path : string) (profile : Profile)
    (c : Compiled) (printed : list string) :
  process_profile fuel path profile = Ok (Some c, printed) →
  ∀ before k after,
    c_classes c = before ++ k :: after →
    cls_is_subclass k = true → after = [].
Proof.
  intros Hrun before k after Hsplit Hmark.
  destruct (process_profile_classes _ _ _ _ _ Hrun)
    as (s & others & st0 & st & _ & _ & Hnil & _ & Hloop & Hc).
  destruct (compile_elements_unmarked _ _ _ _ _ _ _ _ Hloop)
    as (init & tail & Hcl & Hlen & Hinit).
  { rewrite Hnil. constructor. }
  rewrite Hc, Hcl in Hsplit.
  destruct after as [|k1 after]; [done|]. exfalso.
  assert (k ∈ init) as Hk.
  { assert (length (init ++ tail) = length (before ++ k :: k1 :: after)) as Hl
      by (by rewrite Hsplit).
    rewrite !length_app in Hl. simpl in Hl.
    assert ((init ++ tail) !! length before = Some k) as Hlook.
    { rewrite Hsplit. by rewrite list_lookup_middle. }
    rewrite lookup_app_l in Hlook by lia.
    by eapply list_elem_of_lookup_2. }
  pose proof (proj1 (Forall_forall _ _) Hinit k Hk) as Hun.
  simpl in Hun. congruence.
Qed.

Lemma same_class_path k k' : same_class k k' → cls_path k' = cls_path k.
Proof. by intros (? & _). Qed.

(** X6. The element loop keeps its [mapping] sound: every entry leads to a
    class of the entry's path, so that an element is compiled into the
    class made for its class path. *)
Theorem mapping_stays_sound (fuel : nat) (profile : Profile)
    (main superclass : string) (is_subclass : bool)
    (elements : list Element) (st st' : LoopState) :
  mapping_sound st →
  compile_elements fuel profile main superclass is_subclass elements st = Ok st' →
  mapping_sound st'.
Proof.
  revert st. induction elements as [|e elements IH]; intros st Hsound; simpl.
  - by intros [= <-].
  - destruct (compile_element _ _ _ _ _ st e) as [[st1 fl]|] eqn:Hstep; [|done].
    rewrite result_bind_Ok. intros Hrun.
    assert (mapping_sound st1) as Hsound1.
    { destruct (compile_element_effect _ _ _ _ _ _ _ _ _ Hstep)
        as [(Hm & Hc & _)|(d & returned & newklass & Hdef & Hparse & Heffect)].
      { unfold mapping_sound. by rewrite Hm, Hc. }
      cbv zeta in Heffect.
      set (classes1 :=
             match mapped_class st (classpath_of (e_path e)), returned with
             | Some (i, _), Some k' => <[i := k']> (classes st)
             | _, _ => classes st
             end) in *.
      assert (∀ p i, mapping st !! p = Some i →
                     ∃ k, classes1 !! i = Some k ∧ cls_path k = p) as Hsound'.
      { intros p i Hp. destruct (Hsound p i Hp) as (k & Hk & Hkp).
        unfold classes1.
        destruct (mapped_class st (classpath_of (e_path e))) as [[j kj]|] eqn:Hj;
          [|by eauto].
        destruct returned as [k'|]; [|by eauto].
        apply mapped_class_lookup in Hj as [_ Hj].
        destruct (decide (i = j)) as [->|Hne].
        - exists k'. split.
          + apply list_lookup_insert_eq. by eapply lookup_lt_Some.
          + simpl in Hparse.
            rewrite (same_class_path _ _ (parse_elem_owner_same _ _ _ _ _ _ _ Hparse)).
            congruence.
        - exists k. split; [|done]. by rewrite list_lookup_insert_ne. }
      destruct newklass as [nk|].
      - destruct Heffect as (Hm & Hcases).
        assert (∃ k, classes st1 = classes1 ++ [k] ∧ cls_path k = cls_path nk)
          as (k & Hc & Hkp).
        { destruct Hcases as [(_ & _ & ->)|[(_ & _ & _ & ->)|(_ & _ & _ & ->)]];
            eexists; by split. }
        intros p i. rewrite Hm, Hc. intros Hp.
        apply lookup_insert_Some in Hp as [(<- & <-)|(Hne & Hp)].
        + exists k. split; [|done]. by rewrite list_lookup_middle.
        + destruct (Hsound' p i Hp) as (k0 & Hk0 & Hk0p).
          exists k0. split; [|done]. rewrite lookup_app_l; [done|].
          by eapply lookup_lt_Some.
      - destruct Heffect as (Hm & Hc & _). unfold mapping_sound.
        rewrite Hm, Hc. exact Hsound'. }
    destruct fl; [by apply (IH st1)|]. by injection Hrun as <-.
Qed.

End MarkerAndMapping.

(** ** The invariants on sample profiles *)

Lemma classes_name_sorted_witness :
  ∃ c printed,
    process_profile (cfg := sample_settings) 2 "patient.profile.json"
      patient_profile = Ok (Some c, printed) ∧
    ∀ k, k ∈ c_classes c → name_sorted (cls_properties k).
Proof.
  eexists _, _. split; [vm_compute; reflexivity|].
  eapply (classes_name_sorted (cfg := sample_settings) 2 "patient.profile.json"
            patient_profile).
  vm_compute; reflexivity.
Defined.

Lemma classes_flag_right_witness :
  ∃ c printed,
    process_profile (cfg := sample_settings) 2 "patient.profile.json"
      patient_profile = Ok (Some c, printed) ∧
    ∀ k, k ∈ c_classes c → flag_right k.
Proof.
  eexists _, _. split; [vm_compute; reflexivity|].
  eapply (classes_flag_right (cfg := sample_settings) 2 "patient.profile.json"
            patient_profile).
  vm_compute; reflexivity.
Defined.

Lemma classes_resource_marked_witness :
  ∃ c printed,
    process_profile (cfg := sample_settings) 2 "patient.profile.json"
      patient_profile = Ok (Some c, printed) ∧
    ∀ k, k ∈ c_classes c → resource_marked (c_main c) k.
Proof.
  eexists _, _. split; [vm_compute; reflexivity|].
  eapply (classes_resource_marked (cfg := sample_settings) 2
            "patient.profile.json" patient_profile).
  vm_compute; reflexivity.
Defined.


Lemma subclass_marker_last_witness :
  ∃ c printed,
    process_profile (cfg := sample_settings) 2 "age.profile.json" age_profile
      = Ok (Some c, printed) ∧
    ∀ before k after,
      c_classes c = before ++ k :: after →
      cls_is_subclass k = true → after = [].
Proof.
  eexists _, _. split; [vm_compute; reflexivity|].
  eapply (subclass_marker_last (cfg := sample_settings) 2 "age.profile.json"
            age_profile).
  vm_compute; reflexivity.
Defined.

Lemma initial_state_sound : mapping_sound initial_state.
Proof. intros path i H. simpl in H. by rewrite lookup_empty in H. Qed.

Lemma mapping_stays_sound_witness :
  mapping_sound initial_state ∧
  ∃ st',
    compile_elements (cfg := sample_settings) 2 patient_profile "Patient"
      "Patient" false (structure_elements patient_structure) initial_state
      = Ok st' ∧
    mapping_sound st'.
Proof.
  split; [exact initial_state_sound|].
  eexists. split; [vm_compute; reflexivity|].
  eapply (mapping_stays_sound (cfg := sample_settings) 2 patient_profile
            "Patient" "Patient" false (structure_elements patient_structure)
            initial_state _ initial_state_sound).
  vm_compute; reflexivity.
Defined.

(** ** The import list, exactly *)

Section ImportsExact.
Context `{cfg : Settings}.

Lemma note_property_names inline acc prop :
  note_property inline acc prop =
  foldl (note_name inline) acc (referenced_by_property prop).
Proof.
  unfold note_property, referenced_by_property.
  by destruct (prop_isReferenceTo prop).
Qed.

Lemma note_class_names inline acc klass :
  note_class inline acc klass =
  foldl (note_name inline) acc (referenced_by_class klass).
Proof.
  unfold note_class, referenced_by_class. cbn [foldl].
  generalize (note_name inline acc (cls_superclass klass)).
  induction (cls_properties klass) as [|p ps IH]; intros acc'; [done|].
  rewrite bind_cons, foldl_app, <- note_property_names. apply IH.
Qed.

Lemma note_classes_names inline acc classes :
  foldl (note_class inline) acc classes =
  foldl (note_name inline) acc (referenced classes).
Proof.
  revert acc. induction classes as [|k ks IH]; intros acc; [done|].
  unfold referenced. rewrite bind_cons, foldl_app, <- note_class_names.
  apply IH.
Qed.

Lemma note_name_step inline names imports x names1 imports1 :
  note_name inline (names, imports) x = (names1, imports1) →
  (∀ n, n ∈ names1 ↔ n ∈ names ∨ n = x) ∧
  (∀ n, n ∈ imports1 ↔
        n ∈ imports ∨ (n = x ∧ (n ∉ names) ∧ (n ∉ natives) ∧ (n ∉ inline))).
Proof.
  unfold note_name. destruct (decide (x ∈ names)) as [Hin|Hnew].
  - intros [= <- <-]. split; intros n.
    + split; [tauto|]. intros [H| ->]; done.
    + split; [tauto|]. intros [H|(-> & H & _)]; done.
  - destruct (bool_decide (x ∉ natives) && bool_decide (x ∉ inline)) eqn:Hc;
      intros [= <- <-]; split; intros n;
      rewrite ?elem_of_union, ?elem_of_singleton, ?elem_of_app,
        ?list_elem_of_singleton.
    + tauto.
    + apply andb_true_iff in Hc as [Hn Hi].
      apply bool_decide_eq_true in Hn, Hi.
      split; [|tauto]. intros [H| ->]; tauto.
    + tauto.
    + apply andb_false_iff in Hc.
      split; [tauto|]. intros [H|(-> & _ & Hn & Hi)]; [done|].
      destruct Hc as [Hc|Hc]; apply bool_decide_eq_false in Hc; tauto.
Qed.

(** The loop over names: [names] collects what was seen, and [imports] what
    was seen for the first time and is neither native nor inline. *)
Lemma note_names_spec inline (l : list string) names imports :
  (∀ n, n ∈ (foldl (note_name inline) (names, imports) l).1 ↔
        n ∈ names ∨ n ∈ l) ∧
  (∀ n, n ∈ (foldl (note_name inline) (names, imports) l).2 ↔
        n ∈ imports ∨ (n ∈ l ∧ (n ∉ names) ∧ (n ∉ natives) ∧ (n ∉ inline))).
Proof.
  revert names imports. induction l as [|x l IH]; intros names imports.
  - simpl. split; intros n; rewrite elem_of_nil; tauto.
  - cbn [foldl].
    destruct (note_name inline (names, imports) x) as [names1 imports1] eqn:Hstep.
    destruct (note_name_step _ _ _ _ _ _ Hstep) as [S1 S2].
    destruct (IH names1 imports1) as [IH1 IH2].
    split; intros n.
    + rewrite IH1, S1, elem_of_cons. tauto.
    + rewrite IH2, S2, S1, elem_of_cons.
      destruct (decide (n = x)); tauto.
Qed.

(** X7. The import list of a compiled profile holds exactly the names that
    its classes refer to, as superclass, as class of a property or as target
    of a reference, and that are neither native nor the name of a class of
    the profile. *)
Theorem imports_exact (fuel : nat) (path : string) (profile : Profile)
    (c : Compiled) (printed : list string) :
  process_profile fuel path profile = Ok (Some c, printed) →
  ∀ n, n ∈ c_imports c ↔
       n ∈ referenced (c_classes c) ∧ (n ∉ natives) ∧
       ∀ k, k ∈ c_classes c → cls_className k ≠ n.
Proof.
  intros Hrun n. rewrite (process_profile_imports _ _ _ _ _ Hrun).
  unfold compute_imports. rewrite sorted_elem_of, note_classes_names.
  set (inline := list_to_set (map cls_className (c_classes c)) : gset string).
  destruct (note_names_spec inline (referenced (c_classes c)) ∅ []) as [_ H2].
  rewrite H2, elem_of_nil.
  assert (n ∉ inline ↔ ∀ k, k ∈ c_classes c → cls_className k ≠ n) as Hinl.
  { unfold inline. rewrite elem_of_list_to_set, list_elem_of_fmap. split.
    - intros Hn k Hk Heq. apply Hn. by exists k.
    - intros Hn (k & Heq & Hk). by apply (Hn k Hk). }
  rewrite <- Hinl. rewrite elem_of_empty. tauto.
Qed.

End ImportsExact.

Lemma imports_exact_witness :
  ∃ c printed,
    process_profile (cfg := sample_settings) 2 "patient.profile.json"
      patient_profile = Ok (Some c, printed) ∧
    ∀ n, n ∈ c_imports c ↔
         n ∈ referenced (c_classes c) ∧ (n ∉ @natives sample_settings) ∧
         ∀ k, k ∈ c_classes c → cls_className k ≠ n.
Proof.
  eexists _, _. split; [vm_compute; reflexivity|].
  eapply (imports_exact (cfg := sample_settings) 2 "patient.profile.json"
            patient_profile).
  vm_compute; reflexivity.
Defined.

(** ** The declared types of an element *)

Section CollectTypes.
Context `{cfg : Settings}.

Lemma collect_types_spec (tps : list TypeRef) (haz : gset string) :
  NoDup (map fst (collect_types haz tps)) ∧
  (∀ c, c ∈ map fst (collect_types haz tps) ↔ c ∈ map code tps ∧ c ∉ haz) ∧
  (∀ c r, (c, r) ∈ collect_types haz tps →
     ∃ before tp after,
       tps = before ++ tp :: after ∧ code tp = c ∧ profile tp = r ∧
       c ∉ map code before).
Proof.
  revert haz. induction tps as [|tp tps IH]; intros haz; simpl.
  - split; [constructor|]. split.
    + intros c. rewrite elem_of_nil. tauto.
    + intros c r H. by apply elem_of_nil in H.
  - destruct (decide (code tp ∈ haz)) as [Hin|Hnew].
    + destruct (IH haz) as (Hnd & Hmem & Hfirst). split; [done|]. split.
      * intros c. rewrite Hmem, elem_of_cons.
        split; [tauto|]. intros [[->|H] Hc]; tauto.
      * intros c r Hcr. destruct (Hfirst c r Hcr) as (b & t & a & -> & Hc & Hr & Hb).
        exists (tp :: b), t, a. split; [done|]. split; [done|]. split; [done|].
        simpl. rewrite elem_of_cons. intros [->|H]; [|done].
        assert (code tp ∈ map fst (collect_types haz (b ++ t :: a))) as H'.
        { apply list_elem_of_fmap. by exists (code tp, r). }
        apply Hmem in H'. tauto.
    + destruct (IH ({[code tp]} ∪ haz)) as (Hnd & Hmem & Hfirst). simpl.
      split; [|split].
      * constructor; [|done]. rewrite Hmem, elem_of_union, elem_of_singleton.
        tauto.
      * intros c. rewrite !elem_of_cons, Hmem, elem_of_union, elem_of_singleton.
        destruct (decide (c = code tp)) as [->|Hne]; tauto.
      * intros c r Hcr. apply elem_of_cons in Hcr as [[= -> ->]|Hcr].
        -- exists [], tp, tps. repeat split; try done. simpl.
           apply not_elem_of_nil.
        -- destruct (Hfirst c r Hcr) as (b & t & a & -> & Hc & Hr & Hb).
           exists (tp :: b), t, a. split; [done|]. split; [done|].
           split; [done|]. simpl. rewrite elem_of_cons. intros [->|H]; [|done].
           assert (code tp ∈ map fst (collect_types ({[code tp]} ∪ haz)
                                        (b ++ t :: a))) as H'.
           { apply list_elem_of_fmap. by exists (code tp, r). }
           apply Hmem in H'. rewrite elem_of_union, elem_of_singleton in H'.
           tauto.
Qed.

(** X8. The types that [parse_elem] works on hold every declared type code
    once: a code that is declared again is dropped, and the reference target
    that stays with a code is that of its first declaration. *)
Theorem declared_codes_once (tps : list TypeRef) :
  NoDup (map fst (collect_types ∅ tps)) ∧
  (∀ c, c ∈ map fst (collect_types ∅ tps) ↔ c ∈ map code tps) ∧
  (∀ c r, (c, r) ∈ collect_types ∅ tps →
     ∃ before tp after,
       tps = before ++ tp :: after ∧ code tp = c ∧ profile tp = r ∧
       c ∉ map code before).
Proof.
  destruct (collect_types_spec tps ∅) as (Hnd & Hmem & Hfirst).
  split; [done|]. split; [|done].
  intros c. rewrite Hmem, elem_of_empty. tauto.
Qed.

End CollectTypes.

(** ** The parts of an element path *)

Lemma append_assoc (a b c : string) : (a +:+ b) +:+ c = a +:+ b +:+ c.
Proof.
  induction a as [|x a IH]; [done|].
  change (String x ((a +:+ b) +:+ c) = String x (a +:+ b +:+ c)).
  by rewrite IH.
Qed.

Lemma concat_snoc sep (l : list string) x :
  l ≠ [] → String.concat sep (l ++ [x]) = String.concat sep l +:+ sep +:+ x.
Proof.
  induction l as [|y l IH]; [done|]. intros _.
  destruct l as [|z l]; [done|].
  change (String.concat sep ((y :: z :: l) ++ [x]))
    with (y +:+ sep +:+ String.concat sep ((z :: l) ++ [x])).
  rewrite IH by done.
  change (String.concat sep (y :: z :: l))
    with (y +:+ sep +:+ String.concat sep (z :: l)).
  by rewrite !append_assoc.
Qed.

Lemma join_split sep s : Py.join (String sep EmptyString) (Py.split sep s) = s.
Proof.
  unfold Py.join. induction s as [|c r IH]; [done|]. simpl.
  destruct (decide (c = sep)) as [->|Hne].
  - pose proof (split_not_nil sep r) as Hnn.
    destruct (Py.split sep r) as [|h t] eqn:Hr; [done|].
    change (String.concat (String sep "") ("" :: h :: t))
      with (String sep (String.concat (String sep "") (h :: t))).
    by rewrite IH.
  - pose proof (split_not_nil sep r) as Hnn.
    destruct (Py.split sep r) as [|h t] eqn:Hr; [done|].
    destruct t as [|h' t].
    + simpl in *. by rewrite IH.
    + change (String.concat (String sep "") (String c h :: h' :: t))
        with (String c (String.concat (String sep "") (h :: h' :: t))).
      by rewrite IH.
Qed.

Lemma removelast_last (l : list string) :
  l ≠ [] → l = List.removelast l ++ [List.last l ""].
Proof. intros H. by apply app_removelast_last. Qed.

Lemma split_parts_no_sep sep s part :
  part ∈ Py.split sep s → Py.contains (String sep EmptyString) part = false.
Proof.
  revert part. induction s as [|c r IH]; intros part; simpl.
  - intros H. apply list_elem_of_singleton in H. by subst.
  - destruct (decide (c = sep)) as [->|Hne].
    + rewrite elem_of_cons. intros [->|H]; [done|by apply IH].
    + pose proof (split_not_nil sep r) as Hnn.
      destruct (Py.split sep r) as [|h t]; [done|].
      rewrite elem_of_cons. intros [->|H].
      * specialize (IH h (list_elem_of_here _ _)).
        change (Py.contains (String sep "") (String c h))
          with (String.prefix (String sep "") (String c h)
                || Py.contains (String sep "") h).
        rewrite IH. cbn [String.prefix].
        by destruct (ascii_dec sep c) as [->|_].
      * apply IH. by apply list_elem_of_further.
Qed.

(** X9. An element path with a dot is its class path, a dot and its name;
    a path without a dot is its own class path and name; the name never
    holds a dot. *)
Theorem element_path_parts (elem_path : string) :
  (if decide (1 < length (Py.split "." elem_path))
   then classpath_of elem_path +:+ "." +:+ name_of elem_path
   else classpath_of elem_path) = elem_path ∧
  (if decide (1 < length (Py.split "." elem_path)) then True
   else name_of elem_path = elem_path) ∧
  Py.contains "." (name_of elem_path) = false.
Proof.
  unfold classpath_of, name_of.
  pose proof (split_not_nil "." elem_path) as Hnn.
  pose proof (join_split "." elem_path) as Hjoin.
  pose proof (split_parts_no_sep "." elem_path) as Hparts.
  destruct (Py.split "." elem_path) as [|h t] eqn:Hsplit; [done|].
  split; [|split].
  - destruct (decide (1 < length (h :: t))) as [Hlen|Hlen].
    + rewrite <- Hjoin. unfold Py.join.
      rewrite <- concat_snoc; [by rewrite <- removelast_last|].
      destruct t; [simpl in Hlen; lia|done].
    + destruct t; [|simpl in Hlen; lia]. by simpl in *.
  - destruct (decide (1 < length (h :: t))) as [Hlen|Hlen]; [done|].
    destruct t; [|simpl in Hlen; lia]. by simpl in *.
  - apply Hparts. rewrite (removelast_last (h :: t)) at 2 by done.
    apply elem_of_app. right. apply list_elem_of_here.
Qed.

(** ** The normalized name of a search parameter *)

Lemma all_chars_app test a b :
  all_chars test (a +:+ b) = all_chars test a && all_chars test b.
Proof.
  induction a as [|c a IH]; [done|].
  change (all_chars test (String c (a +:+ b)) =
          test c && all_chars test a && all_chars test b).
  simpl. rewrite IH. by rewrite andb_assoc.
Qed.

Lemma contains_single_cons sep c r :
  Py.contains (String sep EmptyString) (String c r) =
  bool_decide (sep = c) || Py.contains (String sep EmptyString) r.
Proof.
  change (Py.contains (String sep "") (String c r))
    with (String.prefix (String sep "") (String c r)
          || Py.contains (String sep "") r).
  f_equal. cbn [String.prefix].
  destruct (ascii_dec sep c) as [->|Hne].
  - rewrite bool_decide_eq_true_2 by done. by destruct r.
  - by rewrite bool_decide_eq_false_2.
Qed.

(** A text without the separator is not cut. *)
Lemma split_without sep s :
  Py.contains (String sep EmptyString) s = false → Py.split sep s = [s].
Proof.
  induction s as [|c r IH]; [done|].
  rewrite contains_single_cons. intros H.
  apply orb_false_iff in H as [Hc Hr]. apply bool_decide_eq_false in Hc.
  simpl. rewrite decide_False by congruence. by rewrite IH.
Qed.

Lemma split_parts_chars test sep s part :
  all_chars test s = true → part ∈ Py.split sep s → all_chars test part = true.
Proof.
  revert part. induction s as [|c r IH]; intros part; simpl.
  - intros _ H. apply list_elem_of_singleton in H. by subst.
  - intros H. apply andb_true_iff in H as [Hc Hr].
    destruct (decide (c = sep)).
    + rewrite elem_of_cons. intros [->|H]; [done|by apply IH].
    + pose proof (split_not_nil sep r) as Hnn.
      destruct (Py.split sep r) as [|h t]; [done|].
      rewrite elem_of_cons. intros [->|H].
      * simpl. rewrite Hc. apply IH; [done|apply list_elem_of_here].
      * apply IH; [done|]. by apply list_elem_of_further.
Qed.

Lemma strip_name_chars name : all_chars name_char (strip_name name) = true.
Proof.
  induction name as [|c r IH]; [done|]. simpl.
  destruct (name_char c) eqn:Hc; [|done]. simpl. by rewrite Hc.
Qed.

Lemma upper_ident c : ident_char c = true → ident_char (Py.upper c) = true.
Proof.
  destruct c as [b0 b1 b2 b3 b4 b5 b6 b7].
  destruct b0, b1, b2, b3, b4, b5, b6, b7; vm_compute; congruence.
Qed.

Lemma ident_char_iff c :
  ident_char c = true ↔ name_char c = true ∧ c ≠ "-"%char.
Proof.
  assert (ident_char c = name_char c && negb (bool_decide (c = "-"%char))) as ->.
  { destruct c as [b0 b1 b2 b3 b4 b5 b6 b7].
    by destruct b0, b1, b2, b3, b4, b5, b6, b7. }
  rewrite andb_true_iff, negb_true_iff, bool_decide_eq_false.
  done.
Qed.

(** A text of name characters without a dash is an identifier. *)
Lemma ident_without_dash s :
  all_chars name_char s = true → Py.contains "-" s = false →
  all_chars ident_char s = true.
Proof.
  induction s as [|c r IH]; [done|].
  rewrite contains_single_cons. simpl. intros H1 H2.
  apply andb_true_iff in H1 as [Hc Hr].
  apply orb_false_iff in H2 as [Hd Hr']. apply bool_decide_eq_false in Hd.
  rewrite IH by done. rewrite andb_true_r. apply ident_char_iff.
  split; [done|congruence].
Qed.

Lemma prefix_empty r : String.prefix "" r = true.
Proof. by destruct r. Qed.

Lemma replace_from_dash c r :
  Py.replace_from "-" "_" (String c r) 0 =
  if decide (c = "-"%char) then String "_" (Py.replace_from "-" "_" r 0)
  else String c (Py.replace_from "-" "_" r 0).
Proof.
  cbn [Py.replace_from String.prefix].
  destruct (ascii_dec "-" c) as [<-|Hne].
  - rewrite prefix_empty. by rewrite decide_True.
  - by rewrite decide_False by congruence.
Qed.

Lemma replace_dash_ident s :
  all_chars name_char s = true →
  all_chars ident_char (Py.replace "-" "_" s) = true.
Proof.
  change (Py.replace "-" "_" s) with (Py.replace_from "-" "_" s 0).
  induction s as [|c r IH]; [done|].
  rewrite replace_from_dash. simpl. intros H.
  apply andb_true_iff in H as [Hc Hr].
  destruct (decide (c = "-"%char)) as [->|Hne]; simpl.
  - by apply IH.
  - rewrite IH by done. rewrite andb_true_r. by apply ident_char_iff.
Qed.

Section Normalize.
Context `{cfg : Settings}.

Lemma camel_rest_spec (parts : list string) (name : string) :
  match camel_rest name parts with
  | Ok _ => "" ∉ parts
  | Raise e => e = IndexError ∧ "" ∈ parts
  end.
Proof.
  revert name. induction parts as [|[|c r] parts IH]; intros name; simpl.
  - apply not_elem_of_nil.
  - split; [done|]. apply list_elem_of_here.
  - specialize (IH (name +:+ String (Py.upper c) r)).
    destruct (camel_rest _ parts).
    + rewrite not_elem_of_cons. by split.
    + destruct IH as [-> IH]. split; [done|]. by apply list_elem_of_further.
Qed.

Lemma camel_rest_ident (parts : list string) (name result : string) :
  all_chars ident_char name = true →
  Forall (fun part => all_chars ident_char part = true) parts →
  camel_rest name parts = Ok result →
  all_chars ident_char result = true.
Proof.
  intros Hname Hparts. revert name Hname.
  induction Hparts as [|part parts Hpart _ IH]; intros name Hname; simpl.
  - by intros [= <-].
  - destruct part as [|c r]; [done|]. apply IH.
    rewrite all_chars_app, Hname. simpl in *.
    apply andb_true_iff in Hpart as [Hc Hr]. by rewrite upper_ident.
Qed.

(** X10. The normalized name of an ASCII name is an identifier: it holds
    letters, digits and underscores only, whatever the declared name and
    the way of folding. *)
Theorem normalized_name_identifier (name n : string) :
  ascii_text name →
  normalize_name name = Ok n → all_chars ident_char n = true.
Proof.
  intros _. unfold normalize_name.
  pose proof (strip_name_chars name) as Hchars.
  destruct (Py.contains "-" (strip_name name)) eqn:Hdash.
  - destruct search_generate_camelcase.
    + unfold _camelCase. destruct (decide (strip_name name = "")) as [Heq|_].
      { rewrite Heq in Hdash. done. }
      pose proof (fun part => split_parts_chars name_char "-" _ part Hchars)
        as Hpc.
      pose proof (split_parts_no_sep "-" (strip_name name)) as Hnd.
      pose proof (split_not_nil "-" (strip_name name)) as Hnn.
      destruct (Py.split "-" (strip_name name)) as [|first parts]; [done|].
      destruct (camel_rest first parts) as [result|] eqn:Hrest; [|done].
      simpl. intros [= <-]. eapply camel_rest_ident; [| |exact Hrest].
      * apply ident_without_dash; [apply Hpc|apply Hnd]; apply list_elem_of_here.
      * apply Forall_forall. intros part Hpart.
        apply ident_without_dash; [apply Hpc|apply Hnd];
          by apply list_elem_of_further.
    + intros [= <-]. by apply replace_dash_ident.
  - intros [= <-]. by apply ident_without_dash.
Qed.

(** X11. Normalizing an ASCII name raises nothing but [IndexError], and
    raises it exactly when names are folded to camel case and a dash of the
    cleaned name is followed by another dash or by the end of the name. *)
Theorem normalize_name_raises (name : string) (e : exn) :
  ascii_text name →
  normalize_name name = Raise e ↔
  e = IndexError ∧ search_generate_camelcase = true ∧
  "" ∈ tail (Py.split "-" (strip_name name)).
Proof.
  intros _. unfold normalize_name.
  destruct (Py.contains "-" (strip_name name)) eqn:Hdash.
  - destruct search_generate_camelcase.
    + unfold _camelCase. destruct (decide (strip_name name = "")) as [Heq|_].
      { rewrite Heq in Hdash. done. }
      pose proof (split_not_nil "-" (strip_name name)) as Hnn.
      destruct (Py.split "-" (strip_name name)) as [|first parts]; [done|].
      pose proof (camel_rest_spec parts first) as Hspec. simpl.
      destruct (camel_rest first parts) as [result|e']; simpl.
      * split; [done|]. intros (_ & _ & H). done.
      * destruct Hspec as [-> Hin]. split; [by intros [= <-]|].
        by intros (-> & _).
    + split; [done|]. by intros (_ & H & _).
  - rewrite (split_without _ _ Hdash). simpl. split; [done|].
    intros (_ & _ & H). by apply elem_of_nil in H.
Qed.

End Normalize.

Lemma normalized_name_identifier_witness :
  ascii_text "address-city.x" ∧
  normalize_name (cfg := sample_settings) "address-city.x" = Ok "addressCityx" ∧
  all_chars ident_char "addressCityx" = true.
Proof.
  split; [reflexivity|]. split; [reflexivity|].
  exact (normalized_name_identifier (cfg := sample_settings) "address-city.x"
           "addressCityx" eq_refl eq_refl).
Defined.

Lemma normalize_name_raises_witness :
  ascii_text "address--city" ∧
  (normalize_name (cfg := sample_settings) "address--city" = Raise IndexError ↔
   IndexError = IndexError ∧
   @search_generate_camelcase sample_settings = true ∧
   "" ∈ tail (Py.split "-" (strip_name "address--city"))) ∧
  normalize_name (cfg := sample_settings) "address--city" = Raise IndexError.
Proof.
  split; [reflexivity|]. split; [|reflexivity].
  exact (normalize_name_raises (cfg := sample_settings) "address--city"
           IndexError eq_refl).
Defined.

(** ** The search parameters of a profile and the accumulators of [parse] *)

Section ProfileSearch.
Context `{cfg : Settings}.

Lemma collect_search_param_spec acc param acc' :
  collect_search_param acc param = Ok acc' →
  (∀ key, key ∈ acc'.1 ↔
     key ∈ acc.1 ∨
     ∃ n, declares param n ∧ key = search_key n (sp_name param) (sp_type param)) ∧
  (∀ n, n ∈ acc'.2 ↔ n ∈ acc.2 ∨ declares param n).
Proof.
  destruct acc as [sps sup]. unfold collect_search_param, declares.
  destruct (bool_decide (sp_name param ≠ "")) eqn:Hname;
    destruct (bool_decide (sp_type param ≠ "")) eqn:Htype; simpl;
    try (intros [= <-]; simpl;
         first [apply bool_decide_eq_false in Hname
               |apply bool_decide_eq_false in Htype];
         split; [intros key|intros n]; split; [tauto| |tauto|];
         [intros [H|(n & (H1 & H2 & _) & _)]|intros [H|(H1 & H2 & _)]];
         tauto).
  apply bool_decide_eq_true in Hname, Htype.
  destruct (normalize_name (sp_name param)) as [n|e] eqn:Hn; [|done].
  simpl. intros [= <-]. simpl. split.
  - intros key. rewrite elem_of_union, elem_of_singleton. split.
    + intros [->|H]; [|tauto]. right. by exists n.
    + intros [H|(n' & (_ & _ & [= <-]) & ->)]; tauto.
  - intros n'. rewrite elem_of_union, elem_of_singleton. split.
    + intros [->|H]; tauto.
    + intros [H|(_ & _ & [= <-])]; tauto.
Qed.

Lemma collect_search_params_spec (params : list SearchParamDecl) acc acc' :
  for_each collect_search_param params acc = Ok acc' →
  (∀ key, key ∈ acc'.1 ↔
     key ∈ acc.1 ∨
     ∃ param n, param ∈ params ∧ declares param n ∧
                key = search_key n (sp_name param) (sp_type param)) ∧
  (∀ n, n ∈ acc'.2 ↔ n ∈ acc.2 ∨ ∃ param, param ∈ params ∧ declares param n).
Proof.
  revert acc. induction params as [|param params IH]; intros acc.
  - intros [= <-]. split; [intros key|intros n]; split; try tauto.
    + intros [H|(param & n & H & _)]; [done|by apply elem_of_nil in H].
    + intros [H|(param & H & _)]; [done|by apply elem_of_nil in H].
  - rewrite for_each_cons.
    destruct (collect_search_param acc param) as [acc1|] eqn:Hstep; [|done].
    rewrite result_bind_Ok. intros Hrest.
    destruct (collect_search_param_spec _ _ _ Hstep) as [S1 S2].
    destruct (IH _ Hrest) as [IH1 IH2]. split.
    + intros key. rewrite IH1, S1. split.
      * intros [[H|(n & Hd & ->)]|(q & n & Hq & Hd & ->)]; [tauto| |].
        -- right. exists param, n. split; [apply list_elem_of_here|done].
        -- right. exists q, n. split; [by apply list_elem_of_further|done].
      * intros [H|(q & n & Hq & Hd & ->)]; [tauto|].
        apply elem_of_cons in Hq as [->|Hq].
        -- left. right. by exists n.
        -- right. by exists q, n.
    + intros n. rewrite IH2, S2. split.
      * intros [[H|Hd]|(q & Hq & Hd)]; [tauto| |].
        -- right. exists param. split; [apply list_elem_of_here|done].
        -- right. exists q. split; [by apply list_elem_of_further|done].
      * intros [H|(q & Hq & Hd)]; [tauto|].
        apply elem_of_cons in Hq as [->|Hq]; [tauto|].
        right. by exists q.
Qed.

Lemma process_profile_search fuel path profile (s : Structure) others c printed :
  structure profile = Some (s :: others) →
  process_profile fuel path profile = Ok (Some c, printed) →
  for_each collect_search_param (default [] (s_searchParam s)) (∅, ∅)
    = Ok (c_search_params c, c_supported c).
Proof.
  intros Hs. unfold process_profile. destruct (decide _); [|done]. rewrite Hs.
  destruct (compile_elements _ _ _ _ _ _ _) as [st|]; [|done].
  rewrite result_bind_Ok.
  destruct (for_each _ _ _) as [[sp sup]|]; [|done].
  rewrite result_bind_Ok. by intros [= <- _].
Qed.

(** X12. The two sets that a compiled profile returns for its search
    parameters go together, when the declared names are ASCII: [supported]
    holds the normalized names of the declarations that have a name and a
    type, and the parameter set holds, for each of them, the key of
    normalized name, declared name and type; a declaration without name or
    type leaves no trace. *)
Theorem profile_search_params (fuel : nat) (path : string) (profile : Profile)
    (s : Structure) (others : list Structure) (c : Compiled)
    (printed : list string) :
  structure profile = Some (s :: others) →
  Forall (fun param => ascii_text (sp_name param))
         (default [] (s_searchParam s)) →
  process_profile fuel path profile = Ok (Some c, printed) →
  (∀ n, n ∈ c_supported c ↔
        ∃ param, param ∈ default [] (s_searchParam s) ∧ declares param n) ∧
  (∀ key, key ∈ c_search_params c ↔
        ∃ param n, param ∈ default [] (s_searchParam s) ∧ declares param n ∧
                   key = search_key n (sp_name param) (sp_type param)).
Proof.
  intros Hs _ Hrun.
  destruct (collect_search_params_spec _ _ _
              (process_profile_search _ _ _ _ _ _ _ Hs Hrun)) as [H1 H2].
  simpl in *. split.
  - intros n. rewrite H2, elem_of_empty. tauto.
  - intros key. rewrite H1, elem_of_empty. tauto.
Qed.

End ProfileSearch.

Lemma profile_search_params_witness :
  structure patient_profile = Some [patient_structure] ∧
  Forall (fun param => ascii_text (sp_name param))
         (default [] (s_searchParam patient_structure)) ∧
  ∃ c printed,
    process_profile (cfg := sample_settings) 2 "patient.profile.json"
      patient_profile = Ok (Some c, printed) ∧
    (∀ n, n ∈ c_supported c ↔
          ∃ param, param ∈ default [] (s_searchParam patient_structure) ∧
                   declares (cfg := sample_settings) param n) ∧
    (∀ key, key ∈ c_search_params c ↔
          ∃ param n, param ∈ default [] (s_searchParam patient_structure) ∧
                     declares (cfg := sample_settings) param n ∧
                     key = search_key n (sp_name param) (sp_type param)).
Proof.
  assert (Forall (fun param => ascii_text (sp_name param))
            (default [] (s_searchParam patient_structure))) as Hnames.
  { repeat (constructor; [reflexivity|]). constructor. }
  split; [reflexivity|]. split; [exact Hnames|].
  eexists _, _. split; [vm_compute; reflexivity|].
  eapply (profile_search_params (cfg := sample_settings) 2
            "patient.profile.json" patient_profile patient_structure []);
    [reflexivity|exact Hnames|].
  vm_compute; reflexivity.
Defined.

(** ** The accumulators of [parse] *)

Lemma note_supported_foldr (main : string) (l : list string)
    (in_profiles : gmap string (gset string)) (n : string) :
  foldr (note_supported main) in_profiles l !! n =
  if decide (n ∈ l)
  then Some ({[main]} ∪ default ∅ (in_profiles !! n))
  else in_profiles !! n.
Proof.
  induction l as [|x l IH].
  - simpl foldr. destruct (decide (n ∈ [])) as [H|]; [|done].
    by apply elem_of_nil in H.
  - simpl foldr. set (r := foldr (note_supported main) in_profiles l) in *.
    unfold note_supported. destruct (decide (n = x)) as [->|Hne].
    + rewrite decide_True by apply list_elem_of_here.
      rewrite IH. destruct (decide (x ∈ l)).
      * rewrite lookup_insert_eq. f_equal.
        by rewrite (assoc_L (∪)), (idemp_L (∪)).
      * destruct (in_profiles !! x); rewrite lookup_insert_eq; simpl; [done|].
        by rewrite union_empty_r_L.
    + assert ((match r !! x with
               | Some profs => <[x := {[main]} ∪ profs]> r
               | None => <[x := {[main]}]> r
               end) !! n = r !! n) as ->.
      { destruct (r !! x); by rewrite lookup_insert_ne. }
      rewrite IH. destruct (decide (n ∈ l)) as [Hin|Hout].
      * rewrite decide_True; [done|]. by apply list_elem_of_further.
      * rewrite decide_False; [done|]. rewrite elem_of_cons. tauto.
Qed.

Lemma note_supported_fold (main : string) (supported : gset string)
    (in_profiles : gmap string (gset string)) (n : string) :
  set_fold (note_supported main) in_profiles supported !! n =
  if decide (n ∈ supported)
  then Some ({[main]} ∪ default ∅ (in_profiles !! n))
  else in_profiles !! n.
Proof.
  unfold set_fold. simpl. rewrite note_supported_foldr.
  destruct (decide (n ∈ elements supported)) as [Hin|Hout].
  - rewrite decide_True; [done|]. by apply elem_of_elements.
  - rewrite decide_False; [done|]. by rewrite <- elem_of_elements.
Qed.

Lemma parse_step_in_profiles reg res n p :
  p ∈ default ∅ (in_profiles (parse_step reg res) !! n) ↔
  p ∈ default ∅ (in_profiles reg !! n) ∨
  ∃ c, res.1 = Some c ∧ c_main c = p ∧ n ∈ c_supported c.
Proof.
  unfold parse_step. destruct res.1 as [c|]; simpl.
  - rewrite note_supported_fold. destruct (decide (n ∈ c_supported c)) as [Hin|Hout].
    + simpl. rewrite elem_of_union, elem_of_singleton. split.
      * intros [->|H]; [|tauto]. right. by exists c.
      * intros [H|(c' & [= <-] & <- & _)]; tauto.
    + split; [tauto|]. intros [H|(c' & [= <-] & _ & H)]; tauto.
  - split; [tauto|]. intros [H|(c' & [=] & _)]. done.
Qed.

(** X13. After any run of profile compilations, the profiles recorded for
    a parameter name are those recorded before and the compiled profiles
    that support the name. *)
Theorem supporting_profiles
    (results : list (option Compiled * list string)) (reg : Registry)
    (n p : string) :
  p ∈ default ∅ (in_profiles (foldl parse_step reg results) !! n) ↔
  p ∈ default ∅ (in_profiles reg !! n) ∨
  ∃ c printed, (Some c, printed) ∈ results ∧ c_main c = p ∧ n ∈ c_supported c.
Proof.
  revert reg. induction results as [|res results IH]; intros reg; simpl.
  - split; [tauto|]. intros [H|(c & o & H & _)]; [done|by apply elem_of_nil in H].
  - rewrite IH, parse_step_in_profiles. split.
    + intros [[H|(c & Hc & Hp & Hn)]|(c & o & Hin & Hp & Hn)]; [tauto| |].
      * right. exists c, res.2. split; [|done].
        destruct res as [r o]. simpl in Hc. subst r. apply list_elem_of_here.
      * right. exists c, o. split; [by apply list_elem_of_further|done].
    + intros [H|(c & o & Hin & Hp & Hn)]; [tauto|].
      apply elem_of_cons in Hin as [<-|Hin].
      * left. right. by exists c.
      * right. by exists c, o.
Qed.

Lemma parse_step_sets reg res :
  (∀ p, p ∈ factories (parse_step reg res) ↔
        p ∈ factories reg ∨ ∃ c, res.1 = Some c ∧ c_main c = p) ∧
  (∀ key, key ∈ search_params (parse_step reg res) ↔
        key ∈ search_params reg ∨ ∃ c, res.1 = Some c ∧ key ∈ c_search_params c).
Proof.
  unfold parse_step. destruct res.1 as [c|]; simpl; split.
  - intros p. rewrite elem_of_union, elem_of_singleton. split.
    + intros [->|H]; [|tauto]. right. by exists c.
    + intros [H|(c' & [= <-] & <-)]; tauto.
  - intros key. rewrite elem_of_union. split.
    + intros [H|H]; [tauto|]. right. by exists c.
    + intros [H|(c' & [= <-] & H)]; tauto.
  - intros p. split; [tauto|]. intros [H|(c' & [=] & _)]. done.
  - intros key. split; [tauto|]. intros [H|(c' & [=] & _)]. done.
Qed.

(** X14. After any run of profile compilations, the factory set holds the
    main names of the compiled profiles besides what it held, and the
    parameter set the keys of all compiled profiles; a profile that was
    skipped adds to neither. *)
Theorem factories_and_params
    (results : list (option Compiled * list string)) (reg : Registry) :
  (∀ p, p ∈ factories (foldl parse_step reg results) ↔
        p ∈ factories reg ∨
        ∃ c printed, (Some c, printed) ∈ results ∧ c_main c = p) ∧
  (∀ key, key ∈ search_params (foldl parse_step reg results) ↔
        key ∈ search_params reg ∨
        ∃ c printed, (Some c, printed) ∈ results ∧ key ∈ c_search_params c).
Proof.
  revert reg. induction results as [|res results IH]; intros reg; simpl.
  - split; intros x; (split; [tauto|]);
      intros [H|(c & o & H & _)]; done || by apply elem_of_nil in H.
  - destruct (IH (parse_step reg res)) as [IH1 IH2].
    destruct (parse_step_sets reg res) as [S1 S2]. split.
    + intros p. rewrite IH1, S1. split.
      * intros [[H|(c & Hc & Hp)]|(c & o & Hin & Hp)]; [tauto| |].
        -- right. exists c, res.2. split; [|done].
           destruct res as [r o]. simpl in Hc. subst r. apply list_elem_of_here.
        -- right. exists c, o. split; [by apply list_elem_of_further|done].
      * intros [H|(c & o & Hin & Hp)]; [tauto|].
        apply elem_of_cons in Hin as [<-|Hin].
        -- left. right. by exists c.
        -- right. by exists c, o.
    + intros key. rewrite IH2, S2. split.
      * intros [[H|(c & Hc & Hp)]|(c & o & Hin & Hp)]; [tauto| |].
        -- right. exists c, res.2. split; [|done].
           destruct res as [r o]. simpl in Hc. subst r. apply list_elem_of_here.
        -- right. exists c, o. split; [by apply list_elem_of_further|done].
      * intros [H|(c & o & Hin & Hp)]; [tauto|].
        apply elem_of_cons in Hin as [<-|Hin].
        -- left. right. by exists c.
        -- right. by exists c, o.
Qed.

Lemma register_class_keyed (l : list ClassModel) m o :
  keyed_by_name m → keyed_by_name (foldl register_class (m, o) l).1.
Proof.
  revert m o. induction l as [|k l IH]; intros m o Hm; simpl; [done|].
  unfold register_class at 2; simpl.
  destruct (m !! cls_className k) eqn:Hk; apply IH; [done|].
  intros cn k' Hlook. apply lookup_insert_Some in Hlook as [[<- <-]|[_ Hlook]];
    [done|by apply Hm].
Qed.

(** X15. The registry stays keyed by class name: after any run of profile
    compilations every class is found under its own name. *)
Theorem registry_keyed_by_name
    (results : list (option Compiled * list string)) (reg : Registry) :
  keyed_by_name (all_classes reg) →
  keyed_by_name (all_classes (foldl parse_step reg results)).
Proof.
  revert reg. induction results as [|res results IH]; intros reg Hreg; simpl;
    [done|].
  apply IH. unfold parse_step. destruct res.1 as [c|]; simpl; [|done].
  by apply register_class_keyed.
Qed.

Lemma registry_keyed_by_name_witness :
  keyed_by_name (all_classes empty_registry) ∧
  keyed_by_name
    (all_classes
       (foldl parse_step empty_registry
          [(Some {| c_main := "Extension"; c_classes := [sample_class];
                    c_search_params := ∅; c_supported := ∅;
                    c_imports := [] |}, [])])).
Proof.
  assert (keyed_by_name (all_classes empty_registry)) as Hempty.
  { intros cn k H. simpl in H. by rewrite lookup_empty in H. }
  split; [exact Hempty|].
  exact (registry_keyed_by_name _ empty_registry Hempty).
Defined.

(** ** The table of [process_search], exactly *)

(** A loop whose rounds raise one exception on the items that are not good,
    and nothing on the others: it returns when all items are good and
    raises that exception otherwise. *)
Lemma for_each_result {A B} (body : B → A → result B) (good : A → Prop)
    (e : exn) (l : list A) (acc : B) :
  (∀ x, Decision (good x)) →
  (∀ acc x, good x → is_Ok (body acc x)) →
  (∀ acc x, ¬ good x → body acc x = Raise e) →
  (Forall good l → is_Ok (for_each body l acc)) ∧
  (¬ Forall good l → for_each body l acc = Raise e).
Proof.
  intros Hdec Hgood Hbad. revert acc.
  induction l as [|x l IH]; intros acc.
  - split; [by eexists|]. intros H. destruct H. constructor.
  - rewrite for_each_cons. destruct (decide (good x)) as [Hx|Hx].
    + destruct (Hgood acc x Hx) as [acc1 ->]. rewrite result_bind_Ok.
      destruct (IH acc1) as [IH1 IH2]. split.
      * intros H. apply IH1. by inversion H.
      * intros H. apply IH2. intros Hl. apply H. by constructor.
    + rewrite (Hbad acc x Hx). split; [|done].
      intros H. by inversion H.
Qed.

Section SearchTable.
Context `{cfg : Settings}.

#[local] Instance three_fields_dec (param : string) : Decision (three_fields param).
Proof. unfold three_fields. apply _. Defined.

Lemma merge_param_good acc param :
  three_fields param → is_Ok (merge_param acc param).
Proof.
  intros H. destruct acc as [exts flags].
  destruct (three_fields_split _ H) as (n & o & t & Hs).
  destruct (merge_param_step exts flags param n o t Hs) as (flags' & -> & _).
  by eexists.
Qed.

Lemma merge_param_bad acc param :
  ¬ three_fields param → merge_param acc param = Raise ValueError.
Proof.
  intros H. destruct acc as [exts flags]. unfold merge_param, three_fields in *.
  destruct (Py.split "|" param) as [|n [|o [|t [|x l]]]]; done.
Qed.

(** X16. [process_search] raises nothing but [ValueError], and raises it
    exactly when the search parameters are switched on and a key of the set
    does not have its three fields, because a declared name or type holds
    the separator of the key. *)
Theorem process_search_raises (params : gset string)
    (in_profiles : gmap string (gset string)) (e : exn) :
  process_search params in_profiles = Raise e ↔
  e = ValueError ∧ write_searchparams = true ∧
  ∃ param, param ∈ params ∧ ¬ three_fields param.
Proof.
  unfold process_search. destruct write_searchparams.
  - destruct (for_each_result merge_param three_fields ValueError
                (Py.sorted (elements params)) ([], ∅) _
                merge_param_good merge_param_bad) as [Hok Hraise].
    destruct (decide (Forall three_fields (Py.sorted (elements params))))
      as [Hall|Hnot].
    + destruct (Hok Hall) as [[exts flags] ->]. rewrite result_bind_Ok.
      split; [done|]. intros (_ & _ & param & Hin & Hbad). destruct Hbad.
      apply (proj1 (Forall_forall _ _) Hall).
      by rewrite sorted_elem_of, elem_of_elements.
    + rewrite (Hraise Hnot). split.
      * intros [= <-]. split; [done|]. split; [done|].
        apply not_Forall_Exists in Hnot; [|apply _].
        apply Exists_exists in Hnot as (param & Hin & Hbad).
        exists param. split; [|done].
        by rewrite sorted_elem_of, elem_of_elements in Hin.
      * by intros (-> & _).
  - split; [done|]. by intros (_ & H & _).
Qed.

Lemma collide_fold_exact finalname (exts : list Extension) (flags : gset string)
    (name : string) :
  name ∈ foldl (fun dupes d =>
                  if decide (finalname = ext_name d) then {[finalname]} ∪ dupes
                  else dupes) flags exts ↔
  name ∈ flags ∨ (name = finalname ∧ finalname ∈ map ext_name exts).
Proof.
  revert flags. induction exts as [|d exts IH]; intros flags; simpl.
  - rewrite elem_of_nil. tauto.
  - rewrite IH, elem_of_cons. destruct (decide (finalname = ext_name d)).
    + rewrite elem_of_union, elem_of_singleton. tauto.
    + tauto.
Qed.

(** The entry that a key of three fields adds to the table. *)
Lemma merge_param_exact exts flags param n o t :
  Py.split "|" param = [n; o; t] →
  ∃ flags',
    merge_param (exts, flags) param =
      Ok (exts ++ [{| ext_name := final_name n; ext_original := o;
                      ext_type := t |}], flags') ∧
    ∀ name, name ∈ flags' ↔
            name ∈ flags ∨ (name = final_name n ∧ final_name n ∈ map ext_name exts).
Proof.
  intros Hsplit. unfold merge_param. rewrite Hsplit.
  eexists. split; [reflexivity|]. intros name. apply collide_fold_exact.
Qed.

Lemma merge_loop_exact (params : list string) exts flags :
  Forall three_fields params →
  ∃ news flags',
    for_each merge_param params (exts, flags) = Ok (exts ++ news, flags') ∧
    Forall2 (fun e key =>
               ∃ n, Py.split "|" key = [n; ext_original e; ext_type e] ∧
                    ext_name e = final_name n) news params ∧
    ∀ name, name ∈ flags' ↔
      name ∈ flags ∨
      ∃ i j e1 e2, i < j ∧ length exts ≤ j ∧
        (exts ++ news) !! i = Some e1 ∧ (exts ++ news) !! j = Some e2 ∧
        ext_name e1 = name ∧ ext_name e2 = name.
Proof.
  intros Hall. revert exts flags.
  induction Hall as [|p params Hp _ IH]; intros exts flags.
  - exists [], flags. split; [by rewrite app_nil_r|]. split; [constructor|].
    intros name. split; [tauto|].
    intros [H|(i & j & e1 & e2 & _ & Hj & _ & Hlook & _)]; [done|].
    rewrite app_nil_r in Hlook. apply lookup_lt_Some in Hlook. lia.
  - destruct (three_fields_split p Hp) as (n & o & t & Hsplit).
    destruct (merge_param_exact exts flags p n o t Hsplit) as (flags1 & Hstep & Hflags1).
    set (entry := {| ext_name := final_name n; ext_original := o; ext_type := t |}) in *.
    destruct (IH (exts ++ [entry]) flags1) as (news & flags' & Hrun & Hnews & Hflags').
    exists (entry :: news), flags'.
    rewrite for_each_cons, Hstep, result_bind_Ok, Hrun.
    replace ((exts ++ [entry]) ++ news) with (exts ++ entry :: news) in *
      by (by rewrite <- app_assoc).
    split; [done|]. split.
    { constructor; [|done]. exists n. by split. }
    intros name. rewrite Hflags', Hflags1. rewrite length_app in *. simpl in *.
    split.
    + intros [[H|(-> & Hin)]|(i & j & e1 & e2 & Hij & Hj & H1 & H2 & Hn1 & Hn2)].
      * by left.
      * right. apply list_elem_of_fmap in Hin as (e1 & Hname & Hin).
        apply list_elem_of_lookup in Hin as (i & Hi).
        exists i, (length exts), e1, entry.
        split; [by eapply lookup_lt_Some|]. split; [done|].
        split; [by rewrite lookup_app_l by (by eapply lookup_lt_Some)|].
        split; [by rewrite list_lookup_middle|]. by split.
      * right. exists i, j, e1, e2. repeat split; try done. lia.
    + intros [H|(i & j & e1 & e2 & Hij & Hj & H1 & H2 & Hn1 & Hn2)]; [tauto|].
      destruct (decide (j = length exts)) as [->|Hne].
      * left. right. rewrite list_lookup_middle in H2 by done.
        injection H2 as <-. simpl in Hn2. subst name. split; [done|].
        rewrite lookup_app_l in H1 by done.
        apply list_elem_of_fmap. exists e1. split; [done|].
        by eapply list_elem_of_lookup_2.
      * right. exists i, j, e1, e2. repeat split; try done. lia.
Qed.

(** X17. When the search parameters are switched on and every key has its
    three fields, the table of [process_search] has one entry per key, in
    the sorted order of the keys, made of the fields of the key with the
    reserved words mapped in the name; and [dupes] holds exactly the names
    that two entries of the table share. *)
Theorem search_table (params : gset string)
    (in_profiles : gmap string (gset string)) :
  write_searchparams = true →
  (∀ param, param ∈ params → three_fields param) →
  ∃ data,
    process_search params in_profiles = Ok (Some data) ∧
    sd_in_profiles data = in_profiles ∧
    Forall2 (fun e key =>
               ∃ n, Py.split "|" key = [n; ext_original e; ext_type e] ∧
                    ext_name e = final_name n)
            (extensions data) (Py.sorted (elements params)) ∧
    ∀ name, name ∈ dupes data ↔
      ∃ i j e1 e2, i < j ∧
        extensions data !! i = Some e1 ∧ extensions data !! j = Some e2 ∧
        ext_name e1 = name ∧ ext_name e2 = name.
Proof.
  intros Hon Hwf. unfold process_search. rewrite Hon.
  assert (Forall three_fields (Py.sorted (elements params))) as Hall.
  { apply Forall_forall. intros p Hp. apply Hwf.
    by rewrite sorted_elem_of, elem_of_elements in Hp. }
  destruct (merge_loop_exact _ [] ∅ Hall) as (news & flags & Hrun & Hnews & Hflags).
  simpl in Hrun, Hflags. rewrite Hrun, result_bind_Ok.
  eexists. split; [reflexivity|]. simpl. split; [done|]. split; [done|].
  intros name. rewrite Hflags, elem_of_empty. split.
  - intros [[]|(i & j & e1 & e2 & Hij & _ & H)]. by exists i, j, e1, e2.
  - intros (i & j & e1 & e2 & Hij & H). right. exists i, j, e1, e2.
    split; [done|]. split; [lia|done].
Qed.

End SearchTable.

Lemma search_table_witness :
  @write_searchparams sample_settings = true ∧
  (∀ param, param ∈ class_params → three_fields param) ∧
  ∃ data,
    process_search (cfg := sample_settings) class_params ∅ = Ok (Some data) ∧
    sd_in_profiles data = ∅ ∧
    Forall2 (fun e key =>
               ∃ n, Py.split "|" key = [n; ext_original e; ext_type e] ∧
                    ext_name e = final_name (cfg := sample_settings) n)
            (extensions data) (Py.sorted (elements class_params)) ∧
    ∀ name, name ∈ dupes data ↔
      ∃ i j e1 e2, i < j ∧
        extensions data !! i = Some e1 ∧ extensions data !! j = Some e2 ∧
        ext_name e1 = name ∧ ext_name e2 = name.
Proof.
  split; [reflexivity|]. split; [exact sample_class_params_fields|].
  exact (search_table (cfg := sample_settings) class_params ∅ eq_refl
           sample_class_params_fields).
Defined.

(** ** More on the example matcher *)

Lemma replace_newline_clean s :
  Py.contains newline (Py.replace newline escaped_newline s) = false.
Proof.
  change (Py.replace newline escaped_newline s)
    with (Py.replace_from newline escaped_newline s 0).
  induction s as [|c r IH]; [done|].
  cbn [Py.replace_from String.prefix newline].
  destruct (ascii_dec (ascii_of_nat 10) c) as [<-|Hne].
  - rewrite prefix_empty.
    change (Py.contains newline
              (String (ascii_of_nat 92)
                 (String "n" (Py.replace_from newline escaped_newline r 0)))
            = false).
    unfold newline in *. rewrite !contains_single_cons, IH. done.
  - unfold newline in *. rewrite contains_single_cons, IH.
    by rewrite bool_decide_eq_false_2.
Qed.

Lemma result_bind_ret {A} (r : result (list A)) :
  (r ≫= fun more => Ok ([] ++ more)) = r.
Proof. by destruct r. Qed.

Section MatcherMore.
Context `{cfg : Settings}.

Lemma handle_items_inv handle path propClass vs i tests :
  handle_items handle path propClass vs i = Ok tests →
  ∃ parts, tests = concat parts ∧
    Forall2 (fun v ts => ∃ p, handle p v propClass = Ok ts) vs parts.
Proof.
  revert i tests. induction vs as [|v vs IH]; intros i tests; simpl.
  - intros [= <-]. exists []. split; [done|constructor].
  - destruct (handle _ v propClass) as [ts|] eqn:Hv; [|done].
    rewrite result_bind_Ok.
    destruct (handle_items handle path propClass vs (S i)) as [more|] eqn:Hvs;
      [|done].
    rewrite result_bind_Ok. intros [= <-].
    destruct (IH _ _ Hvs) as (parts & -> & Hparts).
    exists (ts :: parts). split; [done|]. constructor; [by eexists|done].
Qed.

Lemma handle_items_parts (P : TestAssertion → Prop)
    (handle : string → json → string → result (list TestAssertion))
    propClass vs parts :
  Forall2 (fun v ts => ∃ p, handle p v propClass = Ok ts) vs parts →
  (∀ v p ts, v ∈ vs → handle p v propClass = Ok ts → Forall P ts) →
  Forall (Forall P) parts.
Proof.
  induction 1 as [|v ts vs parts [p Hv] _ IH]; intros Hall; constructor.
  - eapply Hall; [apply list_elem_of_here|exact Hv].
  - apply IH. intros v' p' ts' Hin. apply Hall. by apply list_elem_of_further.
Qed.

(** What a test list is made of: the lists that the handled values of the
    matched keys return. *)
Lemma handle_properties_Forall (P : TestAssertion → Prop) handle props prefix
    items tests :
  (∀ key val prop v p ts,
     (key, val) ∈ items → props !! key = Some prop → v ∈ handled_values val →
     handle p v (prop_className prop) = Ok ts → Forall P ts) →
  handle_properties handle props prefix items = Ok tests →
  Forall P tests.
Proof.
  revert tests. induction items as [|[key val] items IH]; intros tests Hall; simpl.
  - intros [= <-]. constructor.
  - match goal with
    | |- (?r ≫= _) = _ → _ => destruct r as [ts|] eqn:Hhere; [|done]
    end.
    rewrite result_bind_Ok.
    destruct (handle_properties handle props prefix items) as [more|] eqn:Hmore;
      [|done].
    rewrite result_bind_Ok. intros [= <-]. apply Forall_app. split.
    + destruct (props !! key) as [prop|] eqn:Hprop.
      * assert (∀ v p ts', v ∈ handled_values val →
                  handle p v (prop_className prop) = Ok ts' → Forall P ts') as Hval.
        { intros v p ts' Hv. eapply Hall; [apply list_elem_of_here|done|done]. }
        destruct val; try (eapply Hval; [apply list_elem_of_here|exact Hhere]).
        destruct (handle_items_inv _ _ _ _ _ _ Hhere) as (parts & -> & Hparts).
        apply Forall_concat. eapply handle_items_parts; [exact Hparts|].
        exact Hval.
      * injection Hhere as <-. constructor.
    + apply IH; [|done]. intros k v' prop v p ts' Hin. apply Hall.
      by apply list_elem_of_further.
Qed.

Lemma handle_unittest_property_clean_values classes value :
  stays_on_one_line classes value ∧
  Forall (stays_on_one_line classes) (handled_values value).
Proof.
  assert (∀ v, handled_values v = [v] → stays_on_one_line classes v →
               stays_on_one_line classes v ∧
               Forall (stays_on_one_line classes) (handled_values v)) as Hone.
  { intros v -> Hv. split; [done|]. by constructor. }
  assert (∀ path klass value,
            (∀ s, value ≠ JStr s) →
            Forall on_one_line
              [{| ta_path := path; ta_class := klass; ta_value := value |}])
    as Hother.
  { intros path klass v Hv. constructor; [|constructor].
    intros s Hs. simpl in Hs. by destruct (Hv s). }
  induction value as [|b|n|lexeme|s|vs IH|items IH] using json_ind.
  - apply Hone; [done|]. by intros klass path tests.
  - apply Hone; [done|]. intros klass path tests [= <-]. by apply Hother.
  - apply Hone; [done|]. intros klass path tests [= <-]. by apply Hother.
  - apply Hone; [done|]. intros klass path tests [= <-]. by apply Hother.
  - apply Hone; [done|]. intros klass path tests [= <-].
    constructor; [|constructor]. intros s' [= <-]. apply replace_newline_clean.
  - split.
    + intros klass path tests [= <-]. by apply Hother.
    + simpl. eapply Forall_impl; [exact IH|]. by intros v [Hv _].
  - apply Hone; [done|]. intros klass path tests. simpl.
    destruct (classes !! default klass (subclassmap !! klass)) as [subklass|];
      [|intros [= <-]; constructor].
    apply handle_properties_Forall. intros key val prop v p ts Hin Hprop Hval.
    pose proof (proj1 (Forall_forall _ _) IH (key, val) Hin) as [_ Hvals].
    apply (proj1 (Forall_forall _ _) Hvals v Hval).
Qed.

(** X18. In the test list of an example every value that is a text holds
    no line feed: the matcher has replaced each by a backslash and [n]. *)
Theorem tests_on_one_line (utest : json) (classes : gmap string ClassModel)
    (class_name : string) (tests : list TestAssertion) :
  process_unittest utest classes = Ok (Some (class_name, tests)) →
  Forall on_one_line tests.
Proof.
  unfold process_unittest. destruct utest as [| | | | | |items]; try done.
  destruct (dict_get "resourceType" items) as [[| | | |cn| |]|]; try done.
  destruct (classes !! cn) as [klass|]; [|done].
  destruct (process_unittest_properties _ _ _ _) as [ts|] eqn:Hts; [|done].
  rewrite result_bind_Ok. intros [= _ <-].
  rewrite sorted_by_perm.
  eapply handle_properties_Forall; [|exact Hts].
  intros key val prop v p ts' _ _ _.
  apply handle_unittest_property_clean_values.
Qed.

(** X19. Keys of an example that name no property of the class are passed
    over: the test list is that of the example without them. *)
Theorem unknown_keys_ignored (utest : list (string * json)) (klass : ClassModel)
    (classes : gmap string ClassModel) (prefix : option string) :
  process_unittest_properties utest klass classes prefix =
  process_unittest_properties
    (filter (fun kv => is_Some (props_of klass !! kv.1)) utest)
    klass classes prefix.
Proof.
  unfold process_unittest_properties.
  induction utest as [|[key val] utest IH]; [done|].
  rewrite filter_cons. simpl.
  destruct (props_of klass !! key) as [prop|] eqn:Hprop; simpl.
  - rewrite Hprop. by rewrite IH.
  - rewrite <- IH. apply result_bind_ret.
Qed.

Lemma handle_items_raise_inv handle path propClass vs i e :
  handle_items handle path propClass vs i = Raise e →
  ∃ v p, v ∈ vs ∧ handle p v propClass = Raise e.
Proof.
  revert i. induction vs as [|v vs IH]; intros i; simpl; [done|].
  destruct (handle _ v propClass) as [ts|e'] eqn:Hv.
  - rewrite result_bind_Ok.
    destruct (handle_items handle path propClass vs (S i)) as [more|e'] eqn:Hvs;
      [done|].
    intros [= <-]. destruct (IH _ Hvs) as (v' & p & Hin & Hraise).
    exists v', p. split; [by apply list_elem_of_further|done].
  - intros [= <-]. eexists v, _. split; [apply list_elem_of_here|exact Hv].
Qed.

Lemma handle_properties_raise_inv handle props prefix items e :
  handle_properties handle props prefix items = Raise e →
  ∃ key val prop v p,
    (key, val) ∈ items ∧ props !! key = Some prop ∧ v ∈ handled_values val ∧
    handle p v (prop_className prop) = Raise e.
Proof.
  induction items as [|[key val] items IH]; simpl; [done|].
  match goal with
  | |- (?r ≫= _) = _ → _ => destruct r as [ts|e'] eqn:Hhere
  end.
  - rewrite result_bind_Ok.
    destruct (handle_properties handle props prefix items) as [more|e'] eqn:Hmore;
      [done|].
    intros [= <-]. destruct (IH eq_refl) as (k & v' & prop & v & p & Hin & H).
    exists k, v', prop, v, p. split; [by apply list_elem_of_further|done].
  - intros [= <-]. destruct (props !! key) as [prop|] eqn:Hprop; [|done].
    destruct val;
      try (eexists key, _, prop, _, _;
           split; [apply list_elem_of_here|];
           split; [done|]; split; [apply list_elem_of_here|exact Hhere]).
    destruct (handle_items_raise_inv _ _ _ _ _ _ Hhere) as (v & p & Hv & Hraise).
    exists key, (JArr vs), prop, v, p.
    split; [apply list_elem_of_here|]. by split.
Qed.

Lemma handle_unittest_property_raise_values classes value :
  raises_on_null_only classes value ∧
  Forall (raises_on_null_only classes) (handled_values value).
Proof.
  assert (∀ v, handled_values v = [v] → raises_on_null_only classes v →
               raises_on_null_only classes v ∧
               Forall (raises_on_null_only classes) (handled_values v)) as Hone.
  { intros v -> Hv. split; [done|]. by constructor. }
  induction value as [|b|n|lexeme|s|vs IH|items IH] using json_ind.
  - apply Hone; [done|]. intros klass path e [= <-]. split; [done|constructor].
  - apply Hone; [done|]. by intros klass path e.
  - apply Hone; [done|]. by intros klass path e.
  - apply Hone; [done|]. by intros klass path e.
  - apply Hone; [done|]. by intros klass path e.
  - split; [by intros klass path e|].
    simpl. eapply Forall_impl; [exact IH|]. by intros v [Hv _].
  - apply Hone; [done|]. intros klass path e. simpl.
    destruct (classes !! default klass (subclassmap !! klass))
      as [subklass|] eqn:Hsub; [|done].
    intros Hraise.
    destruct (handle_properties_raise_inv _ _ _ _ _ Hraise)
      as (key & val & prop & v & p & Hin & Hprop & Hval & Hv).
    pose proof (proj1 (Forall_forall _ _) IH (key, val) Hin) as [_ Hvals].
    destruct (proj1 (Forall_forall _ _) Hvals v Hval _ _ _ Hv) as [-> Hnull].
    split; [done|]. by eapply null_inside.
Qed.

(** X20. Matching the items of an example against a class raises nothing
    but [AssertionError], and raises it exactly when a [null] is the value,
    or an element of the array value, of a matched key, at any depth. *)
Theorem matching_raises (utest : list (string * json)) (klass : ClassModel)
    (classes : gmap string ClassModel) (prefix : option string) (e : exn) :
  process_unittest_properties utest klass classes prefix = Raise e ↔
  e = AssertionError ∧ null_in_properties classes klass utest.
Proof.
  split.
  - unfold process_unittest_properties. intros Hraise.
    destruct (handle_properties_raise_inv _ _ _ _ _ Hraise)
      as (key & val & prop & v & p & Hin & Hprop & Hval & Hv).
    destruct (proj1 (handle_unittest_property_raise_values classes v) _ _ _ Hv)
      as [-> Hnull].
    split; [done|]. by exists key, val, prop, v.
  - intros [-> Hnull].
    pose proof (process_unittest_properties_raises _ _ _ prefix Hnull) as Hnot.
    destruct (process_unittest_properties utest klass classes prefix)
      as [tests|e'] eqn:Hrun; [destruct Hnot; by eexists|].
    f_equal. unfold process_unittest_properties in Hrun.
    destruct (handle_properties_raise_inv _ _ _ _ _ Hrun)
      as (key & val & prop & v & p & _ & _ & _ & Hv).
    by destruct (proj1 (handle_unittest_property_raise_values classes v) _ _ _ Hv).
Qed.

End MatcherMore.

Lemma tests_on_one_line_witness :
  ∃ tests,
    process_unittest (cfg := sample_settings) (JObj doe_document) patient_classes
      = Ok (Some ("Patient", tests)) ∧
    Forall on_one_line tests.
Proof.
  eexists. split; [vm_compute; reflexivity|].
  eapply (tests_on_one_line (cfg := sample_settings) (JObj doe_document)
            patient_classes "Patient").
  vm_compute; reflexivity.
Defined.

(** ** The version marker *)

Lemma for_each_app {A B} (body : B → A → result B) l1 l2 acc :
  for_each body (l1 ++ l2) acc = for_each body l1 acc ≫= for_each body l2.
Proof.
  revert acc. induction l1 as [|x l1 IH]; intros acc; [done|].
  simpl. destruct (body acc x) as [acc'|e]; [|done]. simpl. apply IH.
Qed.

Lemma contains_count sep s :
  Py.contains (String sep EmptyString) s = bool_decide (0 < count_char sep s).
Proof.
  induction s as [|c r IH]; [done|].
  rewrite contains_single_cons, IH. simpl.
  destruct (decide (c = sep)) as [->|Hne].
  - rewrite (bool_decide_eq_true_2 (sep = sep)) by done.
    rewrite (bool_decide_eq_true_2 (0 < 1 + count_char sep r)) by lia. done.
  - rewrite (bool_decide_eq_false_2 (sep = c)) by congruence. done.
Qed.

Lemma split_max_length sep m s :
  length (Py.split_max sep m s) = S (min m (count_char sep s)).
Proof.
  revert m. induction s as [|c r IH]; intros m; simpl.
  - by rewrite Nat.min_0_r.
  - destruct m as [|m]; [done|].
    destruct (decide (c = sep)) as [->|Hne].
    + simpl. by rewrite IH.
    + pose proof (IH (S m)) as Hlen.
      destruct (Py.split_max sep (S m) r) as [|h t]; [done|]. exact Hlen.
Qed.

Lemma split_max_without sep m s :
  count_char sep s = 0 → Py.split_max sep m s = [s].
Proof.
  revert m. induction s as [|c r IH]; intros m; simpl; [done|].
  destruct (decide (c = sep)) as [->|Hne]; [done|]. simpl. intros Hr.
  destruct m as [|m]; [done|]. by rewrite IH.
Qed.

Lemma split_max_join sep m s :
  String.concat (String sep EmptyString) (Py.split_max sep m s) = s.
Proof.
  revert m. induction s as [|c r IH]; intros m; [done|]. simpl.
  destruct m as [|m]; [done|].
  destruct (decide (c = sep)) as [->|Hne].
  - pose proof (split_max_length sep m r) as Hlen. pose proof (IH m) as Hr.
    destruct (Py.split_max sep m r) as [|h t]; [done|].
    change (String.concat (String sep "") ("" :: h :: t))
      with (String sep (String.concat (String sep "") (h :: t))).
    by rewrite Hr.
  - pose proof (split_max_length sep (S m) r) as Hlen.
    pose proof (IH (S m)) as Hr.
    destruct (Py.split_max sep (S m) r) as [|h [|h' t]]; [done| |].
    + simpl in *. by rewrite Hr.
    + change (String.concat (String sep "") (String c h :: h' :: t))
        with (String c (String.concat (String sep "") (h :: h' :: t))).
      by rewrite Hr.
Qed.

Lemma prefix_inv p s : String.prefix p s = true → ∃ r, s = p +:+ r.
Proof.
  revert s. induction p as [|c p IH]; intros s; [by exists s|].
  destruct s as [|c' s]; [done|]. cbn [String.prefix].
  destruct (ascii_dec c c') as [<-|Hne]; [|done].
  intros Hp. destruct (IH _ Hp) as [r ->]. by exists r.
Qed.

Lemma prefix_app p r : String.prefix p (p +:+ r) = true.
Proof.
  induction p as [|c p IH]; [apply prefix_empty|].
  change (String.prefix (String c p) (String c (p +:+ r)) = true).
  cbn [String.prefix]. by destruct (ascii_dec c c).
Qed.

Lemma split_max_version m r :
  Py.split_max "=" (S m) ("FhirVersion=" +:+ r) =
  "FhirVersion" :: Py.split_max "=" m r.
Proof. reflexivity. Qed.

Lemma count_version r :
  count_char "=" ("FhirVersion=" +:+ r) = S (count_char "=" r).
Proof. reflexivity. Qed.

(** A line with two [=] or more is cut into three parts, which do not fit
    the two names. *)
Lemma version_step_raises version line :
  2 ≤ count_char "=" line → version_step version line = Raise ValueError.
Proof.
  intros Hcount. unfold version_step.
  change "=" with (String "="%char EmptyString) at 1.
  rewrite contains_count, bool_decide_eq_true_2 by lia.
  pose proof (split_max_length "=" 2 line) as Hlen.
  rewrite Nat.min_l in Hlen by done.
  by destruct (Py.split_max "=" 2 line) as [|a [|b [|c [|d l]]]].
Qed.

(** A line with at most one [=] sets the version, when it starts with the
    name, or leaves it. *)
Lemma version_step_cases version line :
  unpacks line →
  (∃ val, line = "FhirVersion=" +:+ val ∧
          version_step version line = Ok (Some val)) ∨
  (sets_version line = false ∧ version_step version line = Ok version).
Proof.
  unfold unpacks, sets_version, version_step. intros Hcount.
  change "=" with (String "="%char EmptyString) at 2.
  rewrite contains_count.
  destruct (decide (0 < count_char "=" line)) as [Hpos|Hzero].
  - rewrite bool_decide_eq_true_2 by done.
    pose proof (split_max_length "=" 2 line) as Hlen.
    rewrite Nat.min_r in Hlen by lia.
    pose proof (split_max_join "=" 2 line) as Hjoin.
    destruct (Py.split_max "=" 2 line) as [|n [|val [|c l]]] eqn:Hsplit;
      try (simpl in Hlen; lia).
    destruct (decide (n = "FhirVersion")) as [->|Hne].
    + left. exists val. split; [by rewrite <- Hjoin|done].
    + right. split; [|done].
      destruct (String.prefix "FhirVersion=" line) eqn:Hp; [|done].
      apply prefix_inv in Hp as [r ->].
      rewrite split_max_version in Hsplit. congruence.
  - rewrite bool_decide_eq_false_2 by done. right. split; [|done].
    destruct (String.prefix "FhirVersion=" line) eqn:Hp; [|done].
    apply prefix_inv in Hp as [r ->]. rewrite count_version in Hzero. lia.
Qed.

Lemma version_loop_keeps lines version :
  Forall (fun line => unpacks line ∧ sets_version line = false) lines →
  for_each version_step lines version = Ok version.
Proof.
  induction 1 as [|line lines [Hline Hnot] _ IH]; [done|].
  rewrite for_each_cons.
  destruct (version_step_cases version line Hline) as [(val & -> & _)|[_ ->]].
  - unfold sets_version in Hnot. by rewrite prefix_app in Hnot.
  - by rewrite result_bind_Ok.
Qed.

Lemma version_loop_returns lines version :
  Forall unpacks lines →
  ∃ r, for_each version_step lines version = Ok r ∧
       (is_Some version → is_Some r) ∧
       (is_Some r → is_Some version ∨
                    Exists (fun line => sets_version line = true) lines).
Proof.
  intros Hlines. revert version.
  induction Hlines as [|line lines Hline _ IH]; intros version.
  - exists version. split; [done|]. split; [done|]. by left.
  - rewrite for_each_cons.
    destruct (version_step_cases version line Hline)
      as [(val & -> & ->)|[Hnot ->]]; rewrite result_bind_Ok.
    + destruct (IH (Some val)) as (r & -> & Hkeep & _). exists r.
      split; [done|]. split; [intros _; by apply Hkeep|].
      intros _. right. apply Exists_cons_hd. apply prefix_app.
    + destruct (IH version) as (r & -> & Hkeep & Hfrom). exists r.
      split; [done|]. split; [done|]. intros Hr.
      destruct (Hfrom Hr) as [?|?]; [by left|right; by apply Exists_cons_tl].
Qed.

Lemma version_loop_raises lines version :
  ¬ Forall unpacks lines →
  for_each version_step lines version = Raise ValueError.
Proof.
  revert version. induction lines as [|line lines IH]; intros version Hnot.
  - destruct Hnot. constructor.
  - rewrite for_each_cons.
    destruct (decide (count_char "=" line < 2)) as [Hline|Hline].
    + destruct (version_step_cases version line Hline) as [(val & _ & ->)|[_ ->]];
        rewrite result_bind_Ok; apply IH; intros Hrest; apply Hnot;
        by constructor.
    + rewrite version_step_raises by lia. done.
Qed.

(** X21. Reading the version raises [ValueError] exactly when a line of
    the file holds two [=] or more, and otherwise [AssertionError] exactly
    when no line starts with the name of the version and a [=]; it raises
    nothing else. *)
Theorem version_errors (text : string) (e : exn) :
  read_version text = Raise e ↔
  (e = ValueError ∧
   Exists (fun line => 2 ≤ count_char "=" line)
          (Py.split (ascii_of_nat 10) text)) ∨
  (e = AssertionError ∧
   Forall unpacks (Py.split (ascii_of_nat 10) text) ∧
   Forall (fun line => sets_version line = false)
          (Py.split (ascii_of_nat 10) text)).
Proof.
  unfold read_version. generalize (Py.split (ascii_of_nat 10) text).
  intros lines.
  destruct (decide (Forall unpacks lines)) as [Hall|Hnot].
  - destruct (version_loop_returns lines None Hall) as (r & Hrun & _ & Hfrom).
    rewrite Hrun, result_bind_Ok. split.
    + destruct r as [v|]; [done|]. intros [= <-]. right.
      split; [done|]. split; [done|].
      apply Forall_forall. intros line Hin.
      destruct (sets_version line) eqn:Hsets; [|done].
      assert (for_each version_step lines None = Ok None) as Hnone by done.
      clear Hfrom. exfalso.
      apply list_elem_of_split in Hin as (before & after & ->).
      apply Forall_app in Hall as [Hbefore Hafter].
      apply Forall_cons in Hafter as [Hline Hafter].
      rewrite for_each_app in Hnone.
      destruct (version_loop_returns before None Hbefore) as (r1 & Hr1 & _).
      rewrite Hr1, result_bind_Ok, for_each_cons in Hnone.
      destruct (version_step_cases r1 line Hline) as [(val & -> & Hstep)|[Hno _]];
        [|congruence].
      rewrite Hstep, result_bind_Ok in Hnone.
      destruct (version_loop_returns after (Some val) Hafter)
        as (r2 & Hr2 & Hkeep & _).
      rewrite Hr2 in Hnone. injection Hnone as ->.
      by destruct Hkeep as [? ?].
    + intros [(-> & Hex)|(-> & _ & Hno)].
      * exfalso. apply Exists_exists in Hex as (line & Hin & Hline).
        pose proof (proj1 (Forall_forall _ _) Hall line Hin) as Hu.
        unfold unpacks in Hu. lia.
      * destruct r as [v|]; [|done]. exfalso.
        destruct (Hfrom (ltac:(by eexists))) as [[? ?]|Hex]; [done|].
        apply Exists_exists in Hex as (line & Hin & Hline).
        pose proof (proj1 (Forall_forall _ _) Hno line Hin). congruence.
  - rewrite version_loop_raises by done. simpl. split.
    + intros [= <-]. left. split; [done|].
      apply not_Forall_Exists in Hnot; [|intros line; apply _].
      eapply Exists_impl; [exact Hnot|]. intros line Hline. simpl in Hline.
      unfold unpacks in Hline. lia.
    + intros [(-> & _)|(_ & Hall & _)]; [done|]. by destruct Hnot.
Qed.

(** X22. The last line that sets the version wins: when every line holds at
    most one [=], the version read is what follows the name and the [=] on
    the last line that starts with them. *)
Theorem version_last_wins (text : string) (before after : list string)
    (v : string) :
  Py.split (ascii_of_nat 10) text = before ++ ("FhirVersion=" +:+ v) :: after →
  count_char "=" v = 0 →
  Forall unpacks before →
  Forall (fun line => unpacks line ∧ sets_version line = false) after →
  read_version text = Ok v.
Proof.
  intros Hlines Hv Hbefore Hafter. unfold read_version.
  rewrite Hlines, for_each_app.
  destruct (version_loop_returns before None Hbefore) as (r & -> & _).
  rewrite result_bind_Ok, for_each_cons.
  assert (version_step r ("FhirVersion=" +:+ v) = Ok (Some v)) as ->.
  { unfold version_step.
    change "=" with (String "="%char EmptyString) at 1.
    rewrite contains_count, count_version, bool_decide_eq_true_2 by lia.
    by rewrite split_max_version, split_max_without. }
  rewrite result_bind_Ok, version_loop_keeps by done. done.
Qed.

Lemma version_last_wins_witness :
  Py.split (ascii_of_nat 10)
    ("FhirVersion=0.0.81" +:+ newline +:+ "FhirVersion=0.0.82" +:+ newline
     +:+ "revision=2833")
    = ["FhirVersion=0.0.81"] ++ ("FhirVersion=" +:+ "0.0.82") :: ["revision=2833"] ∧
  read_version
    ("FhirVersion=0.0.81" +:+ newline +:+ "FhirVersion=0.0.82" +:+ newline
     +:+ "revision=2833")
    = Ok "0.0.82".
Proof.
  split; [reflexivity|].
  apply (version_last_wins _ ["FhirVersion=0.0.81"] ["revision=2833"] "0.0.82").
  - reflexivity.
  - reflexivity.
  - constructor; [unfold unpacks; simpl; lia|constructor].
  - constructor; [split; [unfold unpacks; simpl; lia|reflexivity]|constructor].
Defined.

(** ** The loop over the examples *)

Section UnitTestFacts.
Context `{cfg : Settings}.

Lemma collect_unittest_spec prefix classes all_tests file :
  collect_unittest prefix classes all_tests file =
  match process_unittest file.2 classes with
  | Ok (Some (class_name, tests)) =>
      Ok (<[class_name :=
              default [] (all_tests !! class_name) ++
              [{| ut_filename := path_join prefix (basename file.1);
                  ut_tests := tests |}]]> all_tests)
  | Ok None => Ok all_tests
  | Raise e => Raise e
  end.
Proof.
  unfold collect_unittest.
  destruct (process_unittest _ _) as [[[cn tests]|]|e]; simpl; try done.
  by destruct (all_tests !! cn).
Qed.

Lemma collect_unittests_spec prefix classes files acc all_tests :
  for_each (collect_unittest prefix classes) files acc = Ok all_tests →
  (∀ cn, acc !! cn ≠ Some []) →
  (∀ cn, default [] (all_tests !! cn) =
         default [] (acc !! cn) ++ omap (test_for prefix classes cn) files) ∧
  (∀ cn, all_tests !! cn ≠ Some []).
Proof.
  revert acc. induction files as [|file files IH]; intros acc.
  - intros [= <-] Hacc. split; [|done]. intros cn. by rewrite app_nil_r.
  - rewrite for_each_cons, collect_unittest_spec.
    destruct (process_unittest file.2 classes) as [returned|e] eqn:Hfile;
      [|done].
    destruct returned as [[c tests]|]; rewrite result_bind_Ok;
      intros Hrun Hacc; apply IH in Hrun as (Htests & Hall).
    + split; [|done]. intros cn. rewrite Htests. simpl.
      unfold test_for at 2. rewrite Hfile.
      destruct (decide (c = cn)) as [->|Hne].
      * rewrite lookup_insert_eq. simpl. by rewrite <- app_assoc.
      * by rewrite lookup_insert_ne.
    + intros cn. destruct (decide (c = cn)) as [->|Hne].
      * rewrite lookup_insert_eq. intros [= H]. by apply app_nil in H as [_ ?].
      * by rewrite lookup_insert_ne.
    + split; [|done]. intros cn. rewrite Htests. simpl.
      unfold test_for at 2. by rewrite Hfile.
    + done.
Qed.

(** X23. The tests of the examples are grouped by class: a class has the
    entries of the examples of that class, in the order of the files and
    each under the file's name below the prefix; no class has an empty
    list. *)
Theorem unittests_grouped (prefix : string) (files : list (string * json))
    (classes : gmap string ClassModel)
    (all_tests : gmap string (list UnitTest)) :
  process_unittests prefix files classes = Ok all_tests →
  (∀ cn, default [] (all_tests !! cn) =
         omap (test_for prefix classes cn) files) ∧
  (∀ cn, all_tests !! cn ≠ Some []).
Proof.
  intros Hrun. apply collect_unittests_spec in Hrun; [|done].
  destruct Hrun as (Htests & Hall). split; [|done].
  intros cn. by rewrite Htests, lookup_empty.
Qed.

End UnitTestFacts.

Lemma unittests_grouped_witness :
  ∃ all_tests,
    process_unittests (cfg := sample_settings) "Tests/"
      [("out/patient-example-doe.json", JObj doe_document);
       ("out/other-example.json", JObj [("resourceType", JStr "Other")]);
       ("out/patient-example-two.json", JObj doe_document)] patient_classes
      = Ok all_tests ∧
    (∀ cn, default [] (all_tests !! cn) =
           omap (test_for (cfg := sample_settings) "Tests/" patient_classes cn)
             [("out/patient-example-doe.json", JObj doe_document);
              ("out/other-example.json", JObj [("resourceType", JStr "Other")]);
              ("out/patient-example-two.json", JObj doe_document)]) ∧
    (∀ cn, all_tests !! cn ≠ Some []).
Proof.
  eexists. split; [vm_compute; reflexivity|].
  eapply (unittests_grouped (cfg := sample_settings) "Tests/").
  vm_compute; reflexivity.
Defined.
